(** * Polling loop of twitter-kol-alerts

    Shallow embedding of [monitor_tweets] and [get_latest_tweets_batch]
    from [src/kol_moniter.py] (Telegram backend) and
    [src/monitor_kol_tweets.py] (audio backend).  The two scripts share the
    same loop; they differ in [CHECK_INTERVAL], in what the delivery of a
    new post does, and in whether a caught error is forwarded to the sink.
    The loop is modelled by [cycle] (one iteration of [while True]) over an
    explicit [state] record holding the three mutable locals
    [seen_tweets], [requests_made] and [window_start_time].

    Modelling choices:
    - [time.time()] readings are inputs of a cycle ([cycle_input]); float
      seconds are modelled as exact rationals [Q], and Python's [int(x)] on
      a float as truncation toward zero ([py_int]).
    - [seen_tweets] is a [gset string]; [id_to_username] a [gmap].
    - The observable behaviour of a cycle is a list of [event]s: the HTTP
      request to the search endpoint, sink calls, [logging.error] calls and
      sleeps, plus the three state resets ([Record], [WindowReset],
      [SeenCleared]) so that properties over runs can refer to them.
      Informational logging and console output mirroring the log are not
      modelled. *)

From stdpp Require Import gmap strings list pretty.
From Stdlib Require Import QArith.

Set Warnings "-abstract-large-number".
Open Scope Z_scope.
Open Scope string_scope.
Open Scope list_scope.

(** ** Strings *)

Definition nl : string := String (Ascii.ascii_of_nat 10) EmptyString.

(** Python's [needle in hay] on strings. *)
Fixpoint str_contains (needle hay : string) : bool :=
  String.prefix needle hay ||
  match hay with
  | EmptyString => false
  | String _ hay' => str_contains needle hay'
  end.

(** [str.lower()] on the ASCII range (other characters are left as they
    are). *)
Definition ascii_lower (c : Ascii.ascii) : Ascii.ascii :=
  let n := Ascii.nat_of_ascii c in
  if (65 <=? n)%nat && (n <=? 90)%nat then Ascii.ascii_of_nat (n + 32) else c.

Fixpoint py_lower (s : string) : string :=
  match s with
  | EmptyString => EmptyString
  | String c s' => String (ascii_lower c) (py_lower s')
  end.

(** [int(x)] for a float [x]: truncation toward zero. *)
Definition py_int (q : Q) : Z := Z.quot (Qnum q) (Zpos (Qden q)).

(** ** Configuration (identical in both scripts) *)

Definition RATE_LIMIT_REQUESTS : Z := 15.
Definition RATE_LIMIT_WINDOW : Z := 15 * 60.

(** ** Data *)

(** A post as returned in [data['data']] (fields used by the loop). *)
Record tweet := mk_tweet {
  tw_id : string;
  tw_author_id : string;
  tw_text : string
}.

(** The HTTP response of the search endpoint: status code, [response.text]
    and [data.get('data', [])]. *)
Record response := mk_response {
  status_code : Z;
  resp_text : string;
  resp_data : list tweet
}.

(** Outcome of a Python call that may raise [Exception(msg)]. *)
Inductive result (A : Type) :=
| Ok (a : A)
| Err (msg : string).
Arguments Ok {A} a.
Arguments Err {A} msg.

(** [get_latest_tweets_batch], lines 121-130 of kol_moniter.py. *)
Definition get_latest_tweets_batch (r : response) : result (list tweet) :=
  if Z.eqb (status_code r) 429 then Err "Rate limit exceeded"
  else if negb (Z.eqb (status_code r) 200)
  then Err ("Failed to get tweets: " +:+ resp_text r)
  else Ok (resp_data r).

(** ** Sinks *)

Inductive sink_call :=
| SendMessage (text : string)   (** [send_telegram_message(text)] *)
| AudioAlert (shown : string).  (** console notification + [play_notification_sound()] *)

Inductive event :=
| Request                          (** HTTP request of [get_latest_tweets_batch] *)
| Record                           (** [requests_made += 1] *)
| WindowReset                      (** [requests_made = 0; window_start_time = ...] *)
| SeenCleared                      (** [seen_tweets.clear()] *)
| Alert (tid : string) (c : sink_call)  (** sink call delivering post [tid] *)
| Report (c : sink_call)           (** sink call forwarding an error *)
| LogError (msg : string)          (** [logging.error(msg)] *)
| Sleep (secs : Z).                (** [sleep(secs)] *)

(** What differs between the two scripts. *)
Record variant := mk_variant {
  CHECK_INTERVAL : Z;
  deliver : string -> tweet -> sink_call;   (** username, post *)
  report : string -> list sink_call         (** error_msg *)
}.

Definition tweet_url (t : tweet) : string :=
  "https://twitter.com/i/web/status/" +:+ tw_id t.

(** kol_moniter.py: [CHECK_INTERVAL_MINS = 1]; lines 180-188 and 206-208. *)
Definition telegram : variant := {|
  CHECK_INTERVAL := 1 * 60;
  deliver := fun username t =>
    SendMessage ("🔔 New Tweet from @" +:+ username +:+ "!" +:+ nl +:+ nl +:+
                 "📝 " +:+ tw_text t +:+ nl +:+ nl +:+
                 "🔗 " +:+ tweet_url t);
  report := fun error_msg => [SendMessage ("❌ " +:+ error_msg)]
|}.

(** monitor_kol_tweets.py: [CHECK_INTERVAL_MINS = 3]; lines 165-177: the
    three [print] calls followed by [play_notification_sound()]; the error
    handler (lines 193-206) only logs and prints. *)
Definition audio : variant := {|
  CHECK_INTERVAL := 3 * 60;
  deliver := fun username t =>
    AudioAlert (nl +:+ "🔔 New Tweet from @" +:+ username +:+ "!" +:+ nl +:+
                "📝 " +:+ tw_text t +:+ nl +:+
                "🔗 " +:+ tweet_url t +:+ nl +:+ nl);
  report := fun _ => []
|}.

(** ** Loop state *)

Record state := mk_state {
  seen_tweets : gset string;
  requests_made : Z;
  window_start_time : Q
}.

(** Values of [time.time()] read during one iteration. *)
Record cycle_input := mk_input {
  ci_now : Q;            (** [current_time], line 152 *)
  ci_response : response;(** the search API's answer, if a request is made *)
  ci_handler_now : Q;    (** [time.time()] in the [wait_time] expression *)
  ci_after_wait_now : Q  (** [time.time()] when the window is force-reset *)
}.

Definition init_state (t0 : Q) : state :=
  {| seen_tweets := ∅; requests_made := 0; window_start_time := t0 |}.

(** [{v: k for k, v in user_map.items()}] *)
Definition id_to_username (user_map : list (string * string)) : gmap string string :=
  foldl (fun m '(k, v) => <[v := k]> m) ∅ user_map.

(** [str(KeyError(k))] for a key without quote characters. *)
Definition key_error_msg (k : string) : string := "'" +:+ k +:+ "'".

(** The classification of line 210: [\"rate limit\" in str(e).lower()]. *)
Definition is_rate_limit_error (e : string) : bool :=
  str_contains "rate limit" (py_lower e).

Section Loop.

Variable v : variant.
Variable names : gmap string string.  (** [id_to_username] *)

(** Lines 177-189: the delivery loop.  Returns the new [seen_tweets], the
    events, and the message of the exception raised mid-batch, if any. *)
Fixpoint deliver_batch (seen : gset string) (tweets : list tweet)
  : gset string * list event * option string :=
  match tweets with
  | [] => (seen, [], None)
  | t :: rest =>
      if decide (tw_id t ∈ seen) then deliver_batch seen rest
      else
        let seen1 := {[tw_id t]} ∪ seen in
        match names !! tw_author_id t with
        | None => (seen1, [], Some (key_error_msg (tw_author_id t)))
        | Some username =>
            let '(seen2, evs, exn) := deliver_batch seen1 rest in
            (seen2, Alert (tw_id t) (deliver v username t) :: evs, exn)
        end
  end.

(** Lines 154-157: the window reset at the top of the loop. *)
Definition window_reset (st : state) (now : Q) : state * list event :=
  if Qle_bool (inject_Z RATE_LIMIT_WINDOW) (now - window_start_time st)
  then ({| seen_tweets := seen_tweets st; requests_made := 0;
           window_start_time := now |}, [WindowReset])
  else (st, []).

(** Lines 196-202: [CHECK_INTERVAL] sleeps of one second. *)
Definition wait_phase : list event :=
  repeat (Sleep 1) (Z.to_nat (CHECK_INTERVAL v)).

(** Lines 205-218: the [except Exception as e] handler. *)
Definition handle_error (st : state) (e : string) (inp : cycle_input)
  : state * list event :=
  let error_msg := "Error: " +:+ e in
  let evs := LogError error_msg :: map Report (report v error_msg) in
  if is_rate_limit_error e then
    let wait_time :=
      py_int (window_start_time st + inject_Z RATE_LIMIT_WINDOW - ci_handler_now inp) in
    ({| seen_tweets := seen_tweets st; requests_made := 0;
        window_start_time := ci_after_wait_now inp |},
     evs ++ (if Z.ltb 0 wait_time then [Sleep wait_time] else []) ++ [WindowReset])
  else (st, evs ++ [Sleep (CHECK_INTERVAL v)]).

(** One iteration of [while True] (lines 151-218). *)
Definition cycle (st : state) (inp : cycle_input) : state * list event :=
  let '(st1, ev1) := window_reset st (ci_now inp) in
  if Z.ltb (requests_made st1) RATE_LIMIT_REQUESTS then
    match get_latest_tweets_batch (ci_response inp) with
    | Err e =>
        let '(st', evh) := handle_error st1 e inp in
        (st', ev1 ++ [Request] ++ evh)
    | Ok tweets =>
        let st2 := {| seen_tweets := seen_tweets st1;
                      requests_made := requests_made st1 + 1;
                      window_start_time := window_start_time st1 |} in
        let '(seen2, evd, exn) := deliver_batch (seen_tweets st2) tweets in
        let st3 := {| seen_tweets := seen2;
                      requests_made := requests_made st2;
                      window_start_time := window_start_time st2 |} in
        match exn with
        | Some e =>
            let '(st', evh) := handle_error st3 e inp in
            (st', ev1 ++ [Request; Record] ++ evd ++ evh)
        | None =>
            let '(st4, evc) :=
              if Nat.ltb 1000 (size seen2)
              then ({| seen_tweets := ∅;
                       requests_made := requests_made st3;
                       window_start_time := window_start_time st3 |}, [SeenCleared])
              else (st3, []) in
            (st4, ev1 ++ [Request; Record] ++ evd ++ evc ++ wait_phase)
        end
    end
  else (st1, ev1 ++ wait_phase).

(** A run of the loop over the inputs of successive iterations. *)
Fixpoint run (st : state) (inps : list cycle_input) : state * list event :=
  match inps with
  | [] => (st, [])
  | inp :: rest =>
      let '(st1, evs1) := cycle st inp in
      let '(st2, evs2) := run st1 rest in
      (st2, evs1 ++ evs2)
  end.

End Loop.

(** Sink calls in a list of events. *)
Definition sink_calls (evs : list event) : list sink_call :=
  flat_map (fun e => match e with
                     | Alert _ c | Report c => [c]
                     | _ => []
                     end) evs.

(** Number of [Record]s since the last [WindowReset] (or since the start). *)
Definition csr_step (n : nat) (e : event) : nat :=
  match e with
  | Record => S n
  | WindowReset => 0%nat
  | _ => n
  end.

Definition count_since_reset (evs : list event) : nat := foldl csr_step 0%nat evs.

(** ** Concrete scenarios *)

(** Handles ["a"; "b"] resolved to [{"a": "1", "b": "2"}]. *)
Definition ab_names : gmap string string := id_to_username [("a", "1"); ("b", "2")].

Definition p1 : tweet := mk_tweet "p1" "1" "hi".

Definition ok_response (tweets : list tweet) : response := mk_response 200 "" tweets.

(** A cycle in which every [time.time()] reading is [t]. *)
Definition at_time (t : Q) (r : response) : cycle_input := mk_input t r t t.

(** Binary digits of a positive number, least significant first. *)
Fixpoint pos_bits (p : positive) : string :=
  match p with
  | xH => "1"
  | xO q => "0" +:+ pos_bits q
  | xI q => "1" +:+ pos_bits q
  end.

(** Post ids of the flood scenario: ["p"] followed by the digits of [m + 1]. *)
Definition flood_id (m : nat) : string := "p" +:+ pos_bits (Pos.of_succ_nat m).

Definition flood_post (m : nat) : tweet := mk_tweet (flood_id m) "1" "hi".

(** 1001 fresh posts of author "1". *)
Definition flood_batch : list tweet := map flood_post (seq 0 1001).

(** A fetch of the 1001 posts (the dedup set then exceeds 1000 entries and
    is cleared), then, a minute later, a fetch returning the first again. *)
Definition flood_inputs : list cycle_input :=
  [at_time 0 (ok_response flood_batch); at_time 60 (ok_response [flood_post 0])].

(** A state whose dedup set holds the first 1000 flood ids, and an input
    fetching the 1001st post. *)
Definition flood_state_1000 : state :=
  {| seen_tweets := list_to_set (map flood_id (seq 0 1000));
     requests_made := 0; window_start_time := 0 |}.

Definition flood_input_1000 : cycle_input := at_time 60 (ok_response [flood_post 1000]).

(** A post by an author that is not among the monitored accounts. *)
Definition stray : tweet := mk_tweet "q1" "9" "x".

(** A fetch of the 1001 flood posts followed by the stray post. *)
Definition stray_flood_input : cycle_input := at_time 0 (ok_response (flood_batch ++ [stray])).

(** The text carried by a sink call. *)
Definition sink_text (c : sink_call) : string :=
  match c with SendMessage t | AudioAlert t => t end.

(** ** Start-up and Telegram sends *)

(** Python's [sep.join(l)]. *)
Fixpoint py_join (sep : string) (l : list string) : string :=
  match l with
  | [] => ""
  | [x] => x
  | x :: l' => x +:+ sep +:+ py_join sep l'
  end.

(** A Python dict from strings to strings, in insertion order. *)
Definition py_dict : Type := list (string * string).

(** [d[k] = v]: an existing key keeps its place and gets the new value, a
    new key is appended. *)
Fixpoint dict_set (d : py_dict) (k v : string) : py_dict :=
  match d with
  | [] => [(k, v)]
  | (k', v') :: d' =>
      if String.eqb k k' then (k', v) :: d' else (k', v') :: dict_set d' k v
  end.

(** [d.get(k)]. *)
Fixpoint dict_get (d : py_dict) (k : string) : option string :=
  match d with
  | [] => None
  | (k', v') :: d' => if String.eqb k k' then Some v' else dict_get d' k
  end.

(** An entry of [response.json()['data']] of the users endpoint. *)
Record user := mk_user {
  u_username : string;
  u_id : string
}.

(** The response of the users endpoint: status code, [response.text], and
    [response.json()['data']] ([None] when the key is absent). *)
Record users_response := mk_users_response {
  ur_status : Z;
  ur_text : string;
  ur_data : option (list user)
}.

(** The URL requested by [get_user_ids] (kol_moniter.py lines 76-82,
    monitor_kol_tweets.py lines 57-63). *)
Definition users_url (usernames : list string) : string :=
  "https://api.twitter.com/2/users/by?usernames=" +:+ py_join "," usernames.

(** [get_user_ids] once the response is in (kol_moniter.py lines 83-87,
    monitor_kol_tweets.py lines 64-68): the dict comprehension
    [{user['username'].lower(): user['id'] for user in data}]. *)
Definition get_user_ids (r : users_response) : result py_dict :=
  if negb (Z.eqb (ur_status r) 200) then Err ("Failed to get user IDs: " +:+ ur_text r)
  else
    match ur_data r with
    | None => Err (key_error_msg "data")
    | Some users =>
        Ok (foldl (fun d u => dict_set d (py_lower (u_username u)) (u_id u)) [] users)
    end.

(** [params['query']] of [get_latest_tweets_batch] (kol_moniter.py lines
    101-104, monitor_kol_tweets.py lines 82-85). *)
Definition search_query (user_ids : list string) : string :=
  "(" +:+ py_join " OR " (map (fun uid => "from:" +:+ uid) user_ids) +:+ ")".

(** Side effects of the Telegram sends and of the start of the monitor. *)
Inductive action :=
| BotSend (text : string)          (** [bot.send_message(...)] attempted *)
| LogInfo (msg : string)           (** [logging.info(msg)] *)
| LogErr (msg : string)            (** [logging.error(msg)] *)
| Print (msg : string).            (** [print(msg)] *)

(** Outcome of [await bot.send_message(...)]. *)
Inductive send_outcome :=
| Delivered
| TelegramFailure (e : string)     (** a [TelegramError] *)
| OtherFailure (e : string).       (** any other exception *)

(** [send_telegram_message] (kol_moniter.py lines 61-72): a [TelegramError]
    is logged and swallowed, any other exception propagates. *)
Definition send_telegram_message (out : send_outcome) (message : string)
  : list action * option string :=
  match out with
  | Delivered => ([BotSend message], None)
  | TelegramFailure e =>
      ([BotSend message; LogErr ("Telegram error: " +:+ e); Print ("❌ Telegram error: " +:+ e)],
       None)
  | OtherFailure e => ([BotSend message], Some e)
  end.

Section TelegramDelivery.

Variable names : gmap string string.
(** Outcome of the send of the alert for a post id. *)
Variable outcome : string -> send_outcome.

(** kol_moniter.py lines 177-189 with the side effects of
    [send_telegram_message] and of the [logging.info] after it. *)
Fixpoint deliver_batch_tg (seen : gset string) (tweets : list tweet)
  : gset string * list action * option string :=
  match tweets with
  | [] => (seen, [], None)
  | t :: rest =>
      if decide (tw_id t ∈ seen) then deliver_batch_tg seen rest
      else
        let seen1 := {[tw_id t]} ∪ seen in
        match names !! tw_author_id t with
        | None => (seen1, [], Some (key_error_msg (tw_author_id t)))
        | Some username =>
            let '(acts, exn) :=
              send_telegram_message (outcome (tw_id t))
                                    (sink_text (deliver telegram username t)) in
            match exn with
            | Some e => (seen1, acts, Some e)
            | None =>
                let '(seen2, acts2, exn2) := deliver_batch_tg seen1 rest in
                (seen2, acts ++ LogInfo ("Sent alert for tweet " +:+ tw_id t +:+
                                         " to Telegram") :: acts2, exn2)
            end
        end
  end.

End TelegramDelivery.

(** The alerts of a list of loop events, with their post ids. *)
Definition alerts (evs : list event) : list (string * sink_call) :=
  flat_map (fun e => match e with Alert tid c => [(tid, c)] | _ => [] end) evs.

(** What the Telegram delivery does for one alert whose send does not raise
    a non-Telegram exception. *)
Definition alert_actions (outcome : string -> send_outcome) (a : string * sink_call)
  : list action :=
  BotSend (sink_text (snd a)) ::
  (match outcome (fst a) with
   | TelegramFailure e => [LogErr ("Telegram error: " +:+ e); Print ("❌ Telegram error: " +:+ e)]
   | _ => []
   end) ++
  [LogInfo ("Sent alert for tweet " +:+ fst a +:+ " to Telegram")].

(** Outcome of a [requests.get] call: a response, or a raised exception. *)
Inductive http_result (A : Type) :=
| Got (a : A)
| NetError (e : string).
Arguments Got {A} a.
Arguments NetError {A} e.

(** The start of [monitor_tweets] in kol_moniter.py (lines 134-148): the
    start message, the start log line, then the user-id lookup.  [Ok]
    carries [id_to_username] and [user_ids]. *)
Definition monitor_start_tg (handles : list string) (out : send_outcome)
    (users : http_result users_response)
  : list action * result (gmap string string * list string) :=
  let '(acts, exn) :=
    send_telegram_message out ("🐦 Twitter Monitor Bot Started" +:+ nl +:+ nl +:+
                               "Monitoring handles:" +:+ nl +:+ py_join ", " handles) in
  match exn with
  | Some e => (Print (nl +:+ "🐦 Twitter Monitor Starting") :: acts, Err e)
  | None =>
      let acts' := Print (nl +:+ "🐦 Twitter Monitor Starting") :: acts ++
                   [LogInfo ("Twitter Monitor Starting. Monitoring handles: " +:+
                                     py_join ", " handles)] in
      match users with
      | NetError e => (acts', Err e)
      | Got r =>
          match get_user_ids r with
          | Err e => (acts', Err e)
          | Ok user_map => (acts', Ok (id_to_username user_map, map snd user_map))
          end
      end
  end.

(** Total seconds slept in a list of loop events. *)
Definition sleep_total (evs : list event) : Z :=
  fold_right (fun e acc => match e with Sleep s => s + acc | _ => acc end) 0 evs.

Definition is_request (e : event) : bool := match e with Request => true | _ => false end.

(** Number of search requests in a list of loop events. *)
Definition request_count (evs : list event) : nat := length (List.filter is_request evs).

(** ** Dedup discipline of a trace

    [dedup_steps s evs s'] : starting with dedup set [s], the events [evs]
    are produced by a process that only delivers a post whose id is not in
    the set and inserts it, may insert ids silently, empties the set on
    [SeenCleared], and otherwise leaves it alone; [s'] is the final set. *)

Definition quiet (e : event) : Prop :=
  (forall tid c, e <> Alert tid c) /\ e <> SeenCleared.

Inductive dedup_steps : gset string -> list event -> gset string -> Prop :=
| ds_nil s : dedup_steps s [] s
| ds_alert s tid c evs s' :
    tid ∉ s -> dedup_steps ({[tid]} ∪ s) evs s' ->
    dedup_steps s (Alert tid c :: evs) s'
| ds_grow s s1 evs s' :
    s ⊆ s1 -> dedup_steps s1 evs s' -> dedup_steps s evs s'
| ds_clear s evs s' :
    dedup_steps ∅ evs s' -> dedup_steps s (SeenCleared :: evs) s'
| ds_quiet s e evs s' :
    quiet e -> dedup_steps s evs s' -> dedup_steps s (e :: evs) s'.

Create HintDb dedup.
#[local] Hint Constructors dedup_steps : dedup.

Lemma dedup_steps_app s evs1 s1 evs2 s2 :
  dedup_steps s evs1 s1 -> dedup_steps s1 evs2 s2 -> dedup_steps s (evs1 ++ evs2) s2.
Proof.
  induction 1; intros; simpl; eauto with dedup.
Qed.

Lemma dedup_steps_quiet_prefix s evs1 evs2 s' :
  Forall quiet evs1 -> dedup_steps s evs2 s' -> dedup_steps s (evs1 ++ evs2) s'.
Proof.
  induction 1; intros; simpl; eauto with dedup.
Qed.

Lemma quiet_simple e :
  match e with Alert _ _ | SeenCleared => False | _ => True end -> quiet e.
Proof. destruct e; intros []; split; congruence. Qed.

Ltac quiet_tac :=
  repeat match goal with
         | |- Forall quiet (_ ++ _) => apply Forall_app; split
         | |- Forall quiet (_ :: _) => constructor
         | |- Forall quiet [] => constructor
         | |- quiet _ => apply quiet_simple; exact I
         end.

Lemma map_report_quiet l : Forall quiet (map Report l).
Proof. induction l; simpl; constructor; auto. apply quiet_simple; exact I. Qed.

Lemma repeat_sleep_quiet n k : Forall quiet (repeat (Sleep k) n).
Proof. induction n; simpl; constructor; auto. apply quiet_simple; exact I. Qed.

#[local] Hint Resolve map_report_quiet repeat_sleep_quiet : dedup.

Section LoopFacts.

Variable v : variant.
Variable names : gmap string string.

Lemma window_reset_cases st now :
  window_reset st now = (st, []) \/
  window_reset st now =
    ({| seen_tweets := seen_tweets st; requests_made := 0;
        window_start_time := now |}, [WindowReset]).
Proof.
  unfold window_reset. destruct (Qle_bool _ _); auto.
Qed.

Lemma window_reset_quiet st now :
  Forall quiet (snd (window_reset st now)) /\
  seen_tweets (fst (window_reset st now)) = seen_tweets st.
Proof.
  destruct (window_reset_cases st now) as [-> | ->]; simpl; split; auto; quiet_tac.
Qed.

Lemma handle_error_quiet st e inp :
  Forall quiet (snd (handle_error v st e inp)) /\
  seen_tweets (fst (handle_error v st e inp)) = seen_tweets st.
Proof.
  unfold handle_error. destruct (is_rate_limit_error e); simpl; split; auto.
  - constructor; [apply quiet_simple; exact I|].
    apply Forall_app; split; [apply map_report_quiet|].
    apply Forall_app; split; [destruct (Z.ltb _ _); quiet_tac|quiet_tac].
  - constructor; [apply quiet_simple; exact I|].
    apply Forall_app; split; [apply map_report_quiet|quiet_tac].
Qed.

Lemma deliver_batch_steps seen tweets :
  let '(seen', evs, _) := deliver_batch v names seen tweets in
  dedup_steps seen evs seen'.
Proof.
  revert seen. induction tweets as [|t rest IH]; intros seen; simpl.
  - constructor.
  - destruct (decide (tw_id t ∈ seen)) as [Hin|Hnin]; [apply IH|].
    destruct (names !! tw_author_id t) as [u|].
    + specialize (IH ({[tw_id t]} ∪ seen)).
      destruct (deliver_batch v names ({[tw_id t]} ∪ seen) rest) as [[s2 evs] exn].
      constructor; auto.
    + apply (ds_grow _ ({[tw_id t]} ∪ seen)); [set_solver|constructor].
Qed.

Lemma cycle_steps st inp :
  let '(st', evs) := cycle v names st inp in
  dedup_steps (seen_tweets st) evs (seen_tweets st').
Proof.
  unfold cycle.
  destruct (window_reset_quiet st (ci_now inp)) as [Hq1 Hs1].
  destruct (window_reset st (ci_now inp)) as [st1 ev1]; simpl in *.
  destruct (Z.ltb _ _).
  - destruct (get_latest_tweets_batch (ci_response inp)) as [tweets|e].
    + pose proof (deliver_batch_steps (seen_tweets st1) tweets) as Hd.
      destruct (deliver_batch v names (seen_tweets st1) tweets) as [[seen2 evd] exn].
      destruct exn as [e|].
      * destruct (handle_error_quiet
                    {| seen_tweets := seen2; requests_made := requests_made st1 + 1;
                       window_start_time := window_start_time st1 |} e inp) as [Hq2 Hs2].
        destruct (handle_error _ _ _ _) as [st' evh]; simpl in *.
        apply dedup_steps_quiet_prefix; [auto|].
        apply (dedup_steps_quiet_prefix _ [Request; Record]); [quiet_tac|].
        rewrite Hs2. rewrite Hs1 in Hd. eapply dedup_steps_app; [exact Hd|].
        rewrite <- (app_nil_r evh). apply dedup_steps_quiet_prefix; [auto|constructor].
      * rewrite Hs1 in Hd.
        destruct (Nat.ltb 1000 (size seen2)); simpl;
          apply dedup_steps_quiet_prefix; auto;
          apply (dedup_steps_quiet_prefix _ [Request; Record]); try quiet_tac;
          eapply dedup_steps_app; try exact Hd.
        -- apply ds_clear. rewrite <- (app_nil_r (wait_phase v)).
           apply dedup_steps_quiet_prefix; [apply repeat_sleep_quiet|constructor].
        -- simpl. rewrite <- (app_nil_r (wait_phase v)).
           apply dedup_steps_quiet_prefix; [apply repeat_sleep_quiet|constructor].
    + destruct (handle_error_quiet st1 e inp) as [Hq2 Hs2].
      destruct (handle_error _ _ _ _) as [st' evh]; simpl in *.
      apply dedup_steps_quiet_prefix; [auto|].
      apply (dedup_steps_quiet_prefix _ [Request]); [quiet_tac|].
      rewrite Hs2, Hs1, <- (app_nil_r evh).
      apply dedup_steps_quiet_prefix; [auto|constructor].
  - rewrite <- Hs1, <- (app_nil_r (ev1 ++ wait_phase v)).
    apply dedup_steps_quiet_prefix; [|constructor].
    apply Forall_app; split; [auto|apply repeat_sleep_quiet].
Qed.

Lemma run_steps st inps :
  let '(st', evs) := run v names st inps in
  dedup_steps (seen_tweets st) evs (seen_tweets st').
Proof.
  revert st. induction inps as [|inp rest IH]; intros st; simpl.
  - constructor.
  - pose proof (cycle_steps st inp) as Hc.
    destruct (cycle v names st inp) as [st1 evs1].
    specialize (IH st1). destruct (run v names st1 rest) as [st2 evs2].
    eapply dedup_steps_app; eauto.
Qed.

End LoopFacts.

Lemma dedup_sound s0 tr s :
  dedup_steps s0 tr s ->
  (forall j tid c, nth_error tr j = Some (Alert tid c) -> tid ∈ s0 ->
     exists k, (k < j)%nat /\ nth_error tr k = Some SeenCleared) /\
  (forall i j tid c1 c2, (i < j)%nat ->
     nth_error tr i = Some (Alert tid c1) -> nth_error tr j = Some (Alert tid c2) ->
     exists k, (i < k < j)%nat /\ nth_error tr k = Some SeenCleared).
Proof.
  induction 1 as [s|s tid c evs s' Hnin _ [IHa IHb]|s s1 evs s' Hsub _ [IHa IHb]
                 |s evs s' _ [IHa IHb]|s e evs s' [He1 He2] _ [IHa IHb]];
    split.
  - intros [|j]; discriminate.
  - intros i [|j]; discriminate.
  - intros [|j] tid' c' Hj Hin; simpl in Hj.
    + injection Hj as -> ->. contradiction.
    + destruct (IHa j tid' c' Hj) as [k [Hk Hk']]; [set_solver|].
      exists (S k). split; [lia|exact Hk'].
  - intros [|i] [|j] tid' c1 c2 Hij Hi Hj; simpl in *; try lia.
    + injection Hi as -> ->.
      destruct (IHa j _ c2 Hj) as [k [Hk Hk']]; [set_solver|].
      exists (S k). split; [lia|exact Hk'].
    + destruct (IHb i j tid' c1 c2) as [k [Hk Hk']]; auto; [lia|].
      exists (S k). split; [lia|exact Hk'].
  - intros j tid c Hj Hin. apply (IHa j tid c Hj). set_solver.
  - exact IHb.
  - intros [|j] tid c Hj Hin; simpl in Hj; [discriminate|].
    exists 0%nat. split; [lia|reflexivity].
  - intros [|i] [|j] tid c1 c2 Hij Hi Hj; simpl in *; try lia; try discriminate.
    destruct (IHb i j tid c1 c2) as [k [Hk Hk']]; auto; [lia|].
    exists (S k). split; [lia|exact Hk'].
  - intros [|j] tid c Hj Hin; simpl in Hj.
    + injection Hj as Hj. exact (False_ind _ (He1 _ _ Hj)).
    + destruct (IHa j tid c Hj Hin) as [k [Hk Hk']].
      exists (S k). split; [lia|exact Hk'].
  - intros [|i] [|j] tid c1 c2 Hij Hi Hj; simpl in *; try lia.
    + injection Hi as Hi. exact (False_ind _ (He1 _ _ Hi)).
    + destruct (IHb i j tid c1 c2) as [k [Hk Hk']]; auto; [lia|].
      exists (S k). split; [lia|exact Hk'].
Qed.

Lemma deliver_batch_all_seen v names seen tweets :
  Forall (fun t => tw_id t ∈ seen) tweets ->
  deliver_batch v names seen tweets = (seen, [], None).
Proof.
  induction 1 as [|t rest Ht _ IH]; simpl; auto.
  destruct (decide (tw_id t ∈ seen)); [exact IH|contradiction].
Qed.

Lemma sink_calls_app l1 l2 : sink_calls (l1 ++ l2) = sink_calls l1 ++ sink_calls l2.
Proof. unfold sink_calls. apply flat_map_app. Qed.

Lemma sink_calls_repeat_sleep n k : sink_calls (repeat (Sleep k) n) = [].
Proof. induction n; simpl; auto. Qed.

Lemma sink_calls_window_reset st now : sink_calls (snd (window_reset st now)) = [].
Proof. destruct (window_reset_cases st now) as [-> | ->]; reflexivity. Qed.

(** ** The flood scenario, computed symbolically *)

Lemma append_cons (a : Ascii.ascii) (s t : string) : String a s +:+ t = String a (s +:+ t).
Proof. reflexivity. Qed.

Lemma append_empty (t : string) : EmptyString +:+ t = t.
Proof. reflexivity. Qed.

Lemma pos_bits_nonempty p : pos_bits p <> "".
Proof. destruct p; discriminate. Qed.

Lemma pos_bits_inj p q : pos_bits p = pos_bits q -> p = q.
Proof.
  revert q; induction p as [p IH|p IH|]; intros [q|q|] H; cbn [pos_bits] in H;
    rewrite ?append_cons, ?append_empty in H; try discriminate; try reflexivity;
    injection H as H.
  - f_equal. apply IH. exact H.
  - exfalso. exact (pos_bits_nonempty _ H).
  - f_equal. apply IH. exact H.
  - exfalso. exact (pos_bits_nonempty _ (eq_sym H)).
Qed.

Lemma flood_id_inj m n : flood_id m = flood_id n -> m = n.
Proof.
  unfold flood_id. rewrite !append_cons, !append_empty. intros H. injection H as H.
  apply SuccNat2Pos.inj, pos_bits_inj, H.
Qed.

Lemma flood_ids_nodup k : NoDup (map flood_id (seq 0 k)).
Proof.
  generalize 0%nat. induction k as [|k IH]; intros s; cbn [seq map]; constructor.
  - rewrite list_elem_of_In. intros Hin. apply in_map_iff in Hin as (m & Hm & Hs).
    apply flood_id_inj in Hm. subst m. apply in_seq in Hs. lia.
  - apply IH.
Qed.

Lemma deliver_batch_fresh v names u seen tweets :
  NoDup (map tw_id tweets) ->
  Forall (fun t => (tw_id t ∉ seen) /\ names !! tw_author_id t = Some u) tweets ->
  deliver_batch v names seen tweets =
    (seen ∪ list_to_set (map tw_id tweets),
     map (fun t => Alert (tw_id t) (deliver v u t)) tweets, None).
Proof.
  revert seen. induction tweets as [|t rest IH]; intros seen Hnd Hf; cbn [deliver_batch map].
  - do 2 f_equal. set_solver.
  - cbn [map] in Hnd. inversion Hnd as [|? ? Hnot Hnd']; subst.
    inversion Hf as [|? ? [Hs Hu] Hf']; subst.
    destruct (decide (tw_id t ∈ seen)) as [Hin|_]; [contradiction|].
    rewrite Hu, IH; [do 2 f_equal; set_solver | exact Hnd' |].
    apply List.Forall_forall. intros x Hx.
    destruct (proj1 (List.Forall_forall _ _) Hf' x Hx) as [Hxs Hxu]. split; [|exact Hxu].
    assert (tw_id x <> tw_id t) by (intros E; apply Hnot; rewrite <- E; apply list_elem_of_In, in_map; exact Hx).
    set_solver.
Qed.

Lemma cycle_fetch_ok v names st inp st1 ev1 tweets seen2 evd :
  window_reset st (ci_now inp) = (st1, ev1) ->
  (requests_made st1 < RATE_LIMIT_REQUESTS)%Z ->
  get_latest_tweets_batch (ci_response inp) = Ok tweets ->
  deliver_batch v names (seen_tweets st1) tweets = (seen2, evd, None) ->
  cycle v names st inp =
    ({| seen_tweets := if Nat.ltb 1000 (size seen2) then ∅ else seen2;
        requests_made := requests_made st1 + 1;
        window_start_time := window_start_time st1 |},
     ev1 ++ [Request; Record] ++ evd ++
       (if Nat.ltb 1000 (size seen2) then [SeenCleared] else []) ++ wait_phase v).
Proof.
  intros Hw Hlt Hf Hd. unfold cycle. rewrite Hw. apply Z.ltb_lt in Hlt. rewrite Hlt, Hf.
  cbn [seen_tweets requests_made window_start_time]. rewrite Hd.
  destruct (Nat.ltb _ _); reflexivity.
Qed.

Lemma flood_batch_fresh seen :
  Forall (fun t => tw_id t ∉ seen) flood_batch ->
  deliver_batch telegram ab_names seen flood_batch =
    (seen ∪ list_to_set (map flood_id (seq 0 1001)),
     map (fun t => Alert (tw_id t) (deliver telegram "a" t)) flood_batch, None).
Proof.
  intros Hs.
  assert (Hids : map tw_id flood_batch = map flood_id (seq 0 1001))
    by (unfold flood_batch; rewrite List.map_map; reflexivity).
  rewrite <- Hids. apply deliver_batch_fresh.
  - rewrite Hids. apply flood_ids_nodup.
  - apply List.Forall_forall. intros t Ht. split.
    + exact (proj1 (List.Forall_forall _ _) Hs t Ht).
    + unfold flood_batch in Ht. apply in_map_iff in Ht as (m & <- & _). reflexivity.
Qed.

Lemma flood_trace_eq :
  snd (run telegram ab_names (init_state 0) flood_inputs) =
    [Request; Record] ++ map (fun t => Alert (tw_id t) (deliver telegram "a" t)) flood_batch ++
    [SeenCleared] ++ wait_phase telegram ++
    [Request; Record; Alert (flood_id 0) (deliver telegram "a" (flood_post 0))] ++
    wait_phase telegram.
Proof.
  unfold flood_inputs. cbn [run].
  rewrite (cycle_fetch_ok telegram ab_names (init_state 0) (at_time 0 (ok_response flood_batch))
             (init_state 0) [] flood_batch _ _ eq_refl eq_refl eq_refl
             (flood_batch_fresh ∅ ltac:(apply List.Forall_forall; intros ? _; apply not_elem_of_empty))).
  assert (Hsz : Nat.ltb 1000 (size (∅ ∪ list_to_set (map flood_id (seq 0 1001))
                                      : gset string)) = true).
  { rewrite (left_id_L ∅ (∪)), size_list_to_set;
      [reflexivity | apply flood_ids_nodup]. }
  rewrite Hsz. cbv beta iota.
  pose (st2 := {| seen_tweets := ∅; requests_made := requests_made (init_state 0) + 1;
                  window_start_time := window_start_time (init_state 0) |}).
  change {| seen_tweets := ∅; requests_made := requests_made (init_state 0) + 1;
            window_start_time := window_start_time (init_state 0) |} with st2.
  rewrite (cycle_fetch_ok telegram ab_names st2 (at_time 60 (ok_response [flood_post 0]))
             st2 [] [flood_post 0] _ _ eq_refl eq_refl eq_refl
             (deliver_batch_fresh telegram ab_names "a" ∅ [flood_post 0]
                ltac:(apply NoDup_singleton)
                ltac:(repeat constructor; apply not_elem_of_empty))).
  change (Nat.ltb 1000 (size (∅ ∪ list_to_set (map tw_id [flood_post 0]) : gset string)))
    with false.
  cbn [app]. rewrite !app_nil_r, <- !app_assoc. reflexivity.
Qed.

(** ** C1: at most one delivery per post id between two clears *)

(** C1. Over every run of the loop from its initial state, two deliveries
    (sink calls) of the same post id are always separated by a clear of the
    dedup set; and a cycle whose fetch returns only posts whose ids are
    already in the dedup set makes no sink call at all. *)
Theorem C1_at_most_once_delivery :
  (forall v names t0 inps i j tid c1 c2,
     (i < j)%nat ->
     nth_error (snd (run v names (init_state t0) inps)) i = Some (Alert tid c1) ->
     nth_error (snd (run v names (init_state t0) inps)) j = Some (Alert tid c2) ->
     exists k, (i < k < j)%nat /\
       nth_error (snd (run v names (init_state t0) inps)) k = Some SeenCleared) /\
  (forall v names st inp tweets,
     get_latest_tweets_batch (ci_response inp) = Ok tweets ->
     Forall (fun t => tw_id t ∈ seen_tweets st) tweets ->
     sink_calls (snd (cycle v names st inp)) = []).
Proof.
  split.
  - intros v names t0 inps i j tid c1 c2 Hij Hi Hj.
    pose proof (run_steps v names (init_state t0) inps) as Hr.
    destruct (run v names (init_state t0) inps) as [st' tr]. simpl in *.
    destruct (dedup_sound _ _ _ Hr) as [_ Hb]. eauto.
  - intros v names st inp tweets Hf Hall. unfold cycle.
    destruct (window_reset_quiet st (ci_now inp)) as [_ Hs1].
    pose proof (sink_calls_window_reset st (ci_now inp)) as Hw.
    destruct (window_reset st (ci_now inp)) as [st1 ev1]; cbn [fst snd] in *.
    destruct (Z.ltb _ _).
    + rewrite Hf, Hs1, deliver_batch_all_seen by exact Hall.
      destruct (Nat.ltb _ _); cbn -[sink_calls wait_phase];
        rewrite sink_calls_app, Hw;
        exact (sink_calls_repeat_sleep (Z.to_nat (CHECK_INTERVAL v)) 1).
    + cbn [fst snd]. rewrite sink_calls_app, Hw. apply sink_calls_repeat_sleep.
Qed.

Lemma C1_witness :
  (exists k, (2 < k < 1066)%nat /\
     nth_error (snd (run telegram ab_names (init_state 0) flood_inputs)) k = Some SeenCleared) /\
  sink_calls (snd (cycle telegram ab_names
                     (fst (cycle telegram ab_names (init_state 0) (at_time 10 (ok_response [p1]))))
                     (at_time 70 (ok_response [p1])))) = [].
Proof.
  split.
  - apply (proj1 C1_at_most_once_delivery telegram ab_names 0%Q flood_inputs 2%nat 1066%nat
             (flood_id 0) (deliver telegram "a" (flood_post 0))
             (deliver telegram "a" (flood_post 0)));
      [apply Nat.ltb_lt; reflexivity
      | rewrite flood_trace_eq; reflexivity ..].
  - apply (proj2 C1_at_most_once_delivery telegram ab_names _ _ [p1]);
      [reflexivity|].
    constructor; [|constructor]. vm_compute. reflexivity.
Defined.

(** ** The request counter *)

Definition counter_free (e : event) : Prop :=
  match e with Record | WindowReset => False | _ => True end.

(** Largest number of [Record]s since the last reset over all prefixes. *)
Fixpoint max_count (m : nat) (evs : list event) : nat :=
  match evs with
  | [] => m
  | e :: rest => Nat.max m (max_count (csr_step m e) rest)
  end.

Lemma csr_counter_free m evs :
  Forall counter_free evs -> foldl csr_step m evs = m.
Proof.
  revert m. induction evs as [|e evs IH]; intros m H; inversion H; subst; simpl; auto.
  destruct e; simpl in *; try contradiction; auto.
Qed.

Lemma max_count_counter_free m evs :
  Forall counter_free evs -> max_count m evs = m.
Proof.
  revert m. induction evs as [|e evs IH]; intros m H; inversion H; subst; simpl; auto.
  destruct e; simpl in *; try contradiction; rewrite IH; auto; lia.
Qed.

Lemma max_count_app m l1 l2 :
  max_count m (l1 ++ l2) = Nat.max (max_count m l1) (max_count (foldl csr_step m l1) l2).
Proof.
  revert m. induction l1 as [|e l1 IH]; intros m; simpl.
  - destruct l2; simpl; lia.
  - rewrite IH. lia.
Qed.

Lemma max_count_ge m evs : (m <= max_count m evs)%nat.
Proof. destruct evs; simpl; lia. Qed.

Lemma firstn_count_le m n evs : (foldl csr_step m (firstn n evs) <= max_count m evs)%nat.
Proof.
  revert m n. induction evs as [|e evs IH]; intros m [|n]; simpl; try lia.
  specialize (IH (csr_step m e) n). lia.
Qed.

Lemma counter_free_simple e :
  match e with Record | WindowReset => False | _ => True end -> counter_free e.
Proof. destruct e; auto. Qed.

Ltac cfree_tac :=
  repeat match goal with
         | |- Forall counter_free (_ ++ _) => apply Forall_app; split
         | |- Forall counter_free (_ :: _) => constructor
         | |- Forall counter_free [] => constructor
         | |- counter_free _ => exact I
         end.

Lemma map_report_counter_free l : Forall counter_free (map Report l).
Proof. induction l; simpl; constructor; auto. exact I. Qed.

Lemma repeat_sleep_counter_free n k : Forall counter_free (repeat (Sleep k) n).
Proof. induction n; simpl; constructor; auto. exact I. Qed.

Lemma deliver_batch_counter_free v names seen tweets :
  Forall counter_free (snd (fst (deliver_batch v names seen tweets))).
Proof.
  revert seen. induction tweets as [|t rest IH]; intros seen; simpl; [constructor|].
  destruct (decide _); [apply IH|].
  destruct (names !! _); simpl; [|constructor].
  specialize (IH ({[tw_id t]} ∪ seen)).
  destruct (deliver_batch _ _ _ _) as [[? ?] ?]; simpl in *. constructor; auto. exact I.
Qed.

(** The handler either leaves the counter alone (no counter event) or
    resets it, its last event being [WindowReset]. *)
Lemma handle_error_counter v st e inp (m : nat) :
  let '(st', evs) := handle_error v st e inp in
  (requests_made st' = requests_made st /\ Forall counter_free evs) \/
  (requests_made st' = 0 /\ foldl csr_step m evs = 0%nat /\
   (max_count m evs <= Nat.max m 0)%nat).
Proof.
  unfold handle_error. destruct (is_rate_limit_error e).
  - right. simpl. split; [reflexivity|].
    rewrite app_assoc.
    assert (Hp : Forall counter_free
                   (map Report (report v ("Error: " +:+ e)) ++
                    (if Z.ltb 0 (py_int (window_start_time st + inject_Z RATE_LIMIT_WINDOW
                                         - ci_handler_now inp))
                     then [Sleep (py_int (window_start_time st + inject_Z RATE_LIMIT_WINDOW
                                          - ci_handler_now inp))] else []))).
    { apply Forall_app; split; [apply map_report_counter_free|].
      destruct (Z.ltb _ _); cfree_tac. }
    rewrite foldl_app, max_count_app, (csr_counter_free _ _ Hp), (max_count_counter_free _ _ Hp).
    simpl. split; [reflexivity|lia].
  - left. split; [reflexivity|]. constructor; [exact I|].
    apply Forall_app; split; [apply map_report_counter_free|cfree_tac].
Qed.

Lemma window_reset_counter st now :
  (0 <= requests_made st <= RATE_LIMIT_REQUESTS)%Z ->
  let '(st1, ev1) := window_reset st now in
  (0 <= requests_made st1 <= RATE_LIMIT_REQUESTS)%Z /\
  foldl csr_step (Z.to_nat (requests_made st)) ev1 = Z.to_nat (requests_made st1) /\
  (max_count (Z.to_nat (requests_made st)) ev1 <= Z.to_nat RATE_LIMIT_REQUESTS)%nat.
Proof.
  unfold RATE_LIMIT_REQUESTS. intros Hb.
  destruct (window_reset_cases st now) as [-> | ->]; simpl; split_and!; lia.
Qed.

Lemma cycle_counter v names st inp :
  (0 <= requests_made st <= RATE_LIMIT_REQUESTS)%Z ->
  let '(st', evs) := cycle v names st inp in
  (0 <= requests_made st' <= RATE_LIMIT_REQUESTS)%Z /\
  foldl csr_step (Z.to_nat (requests_made st)) evs = Z.to_nat (requests_made st') /\
  (max_count (Z.to_nat (requests_made st)) evs <= Z.to_nat RATE_LIMIT_REQUESTS)%nat.
Proof.
  intros Hb. unfold cycle.
  pose proof (window_reset_counter st (ci_now inp) Hb) as Hw.
  destruct (window_reset st (ci_now inp)) as [st1 ev1].
  destruct Hw as (H1 & H2 & H3).
  set (m := Z.to_nat (requests_made st)) in *.
  unfold RATE_LIMIT_REQUESTS in *.
  destruct (Z.ltb (requests_made st1) 15) eqn:Hlt.
  - apply Z.ltb_lt in Hlt.
    destruct (get_latest_tweets_batch (ci_response inp)) as [tweets|e].
    + cbn [seen_tweets requests_made window_start_time].
      pose proof (deliver_batch_counter_free v names (seen_tweets st1) tweets) as Hd.
      destruct (deliver_batch v names (seen_tweets st1) tweets) as [[seen2 evd] exn].
      simpl in Hd.
      destruct exn as [e|].
      * pose proof (handle_error_counter v
                      {| seen_tweets := seen2; requests_made := requests_made st1 + 1;
                         window_start_time := window_start_time st1 |} e inp
                      (Z.to_nat (requests_made st1 + 1))) as Hh.
        destruct (handle_error _ _ _ _) as [st' evh].
        cbv beta iota. rewrite !foldl_app, !max_count_app, H2. simpl in Hh |- *.
        rewrite (csr_counter_free _ _ Hd), (max_count_counter_free _ _ Hd).
        replace (S (Z.to_nat (requests_made st1))) with (Z.to_nat (requests_made st1 + 1))
          by lia.
        destruct Hh as [[E Hf] | (E & Hf & Hm)].
        -- rewrite (csr_counter_free _ _ Hf), (max_count_counter_free _ _ Hf).
           split_and!; lia.
        -- rewrite Hf. split_and!; lia.
      * assert (Hc : Forall counter_free
                       (snd (if Nat.ltb 1000 (size seen2)
                             then ({| seen_tweets := ∅; requests_made := requests_made st1 + 1;
                                      window_start_time := window_start_time st1 |},
                                   [SeenCleared])
                             else ({| seen_tweets := seen2;
                                      requests_made := requests_made st1 + 1;
                                      window_start_time := window_start_time st1 |}, []))) /\
                     requests_made (fst (if Nat.ltb 1000 (size seen2)
                             then ({| seen_tweets := ∅; requests_made := requests_made st1 + 1;
                                      window_start_time := window_start_time st1 |},
                                   [SeenCleared])
                             else ({| seen_tweets := seen2;
                                      requests_made := requests_made st1 + 1;
                                      window_start_time := window_start_time st1 |}, [])))
                     = requests_made st1 + 1)
          by (destruct (Nat.ltb _ _); simpl; split; cfree_tac; reflexivity).
        destruct (if Nat.ltb 1000 (size seen2) then _ else _) as [st4 evc].
        destruct Hc as [Hc E]. simpl in Hc, E.
        pose proof (repeat_sleep_counter_free (Z.to_nat (CHECK_INTERVAL v)) 1) as Hs.
        fold (wait_phase v) in Hs.
        cbv beta iota. rewrite !foldl_app, !max_count_app, H2. simpl.
        rewrite (csr_counter_free _ _ Hd), (max_count_counter_free _ _ Hd),
                (csr_counter_free _ _ Hc), (max_count_counter_free _ _ Hc),
                (csr_counter_free _ _ Hs), (max_count_counter_free _ _ Hs), E.
        split_and!; lia.
    + pose proof (handle_error_counter v st1 e inp (Z.to_nat (requests_made st1))) as Hh.
      destruct (handle_error _ _ _ _) as [st' evh].
      cbv beta iota. rewrite !foldl_app, !max_count_app, H2. simpl.
      destruct Hh as [[E Hf] | (E & Hf & Hm)].
      -- rewrite (csr_counter_free _ _ Hf), (max_count_counter_free _ _ Hf).
         split_and!; lia.
      -- rewrite Hf. split_and!; lia.
  - pose proof (repeat_sleep_counter_free (Z.to_nat (CHECK_INTERVAL v)) 1) as Hs.
    fold (wait_phase v) in Hs.
    cbv beta iota. rewrite !foldl_app, !max_count_app, H2.
    rewrite (csr_counter_free _ _ Hs), (max_count_counter_free _ _ Hs).
    split_and!; lia.
Qed.

Lemma run_counter v names st inps :
  (0 <= requests_made st <= RATE_LIMIT_REQUESTS)%Z ->
  let '(st', evs) := run v names st inps in
  (0 <= requests_made st' <= RATE_LIMIT_REQUESTS)%Z /\
  foldl csr_step (Z.to_nat (requests_made st)) evs = Z.to_nat (requests_made st') /\
  (max_count (Z.to_nat (requests_made st)) evs <= Z.to_nat RATE_LIMIT_REQUESTS)%nat.
Proof.
  revert st. induction inps as [|inp rest IH]; intros st Hb; simpl.
  - unfold RATE_LIMIT_REQUESTS in *. split_and!; lia.
  - pose proof (cycle_counter v names st inp Hb) as Hc.
    destruct (cycle v names st inp) as [st1 evs1].
    destruct Hc as (Hc1 & Hc2 & Hc3).
    specialize (IH st1 Hc1). destruct (run v names st1 rest) as [st2 evs2].
    destruct IH as (I1 & I2 & I3).
    rewrite foldl_app, max_count_app, Hc2. refine (conj I1 (conj I2 _)). lia.
Qed.

Lemma not_in_request_wait v : ~ In Request (wait_phase v).
Proof. unfold wait_phase. intros H. apply repeat_spec in H. discriminate. Qed.

Lemma hd_wait_phase v : hd_error (wait_phase v) <> Some WindowReset.
Proof. unfold wait_phase. destruct (Z.to_nat _); simpl; congruence. Qed.

(** Whatever the fetch does, a cycle whose gate is open issues the request
    right after the window reset. *)
Lemma cycle_open_shape v names st inp :
  (requests_made (fst (window_reset st (ci_now inp))) < RATE_LIMIT_REQUESTS)%Z ->
  exists rest, snd (cycle v names st inp) = snd (window_reset st (ci_now inp)) ++ Request :: rest.
Proof.
  intros Hlt. unfold cycle.
  destruct (window_reset st (ci_now inp)) as [st1 ev1]; cbn [fst snd] in *.
  apply Z.ltb_lt in Hlt. rewrite Hlt.
  destruct (get_latest_tweets_batch _) as [tweets|e].
  - destruct (deliver_batch _ _ _ _) as [[seen2 evd] [e|]].
    + destruct (handle_error _ _ _ _) as [st' evh]. eexists. reflexivity.
    + destruct (if Nat.ltb _ _ then _ else _) as [st4 evc]. eexists. reflexivity.
  - destruct (handle_error _ _ _ _) as [st' evh]. eexists. reflexivity.
Qed.

Lemma cycle_closed_shape v names st inp :
  (RATE_LIMIT_REQUESTS <= requests_made (fst (window_reset st (ci_now inp))))%Z ->
  snd (cycle v names st inp) = snd (window_reset st (ci_now inp)) ++ wait_phase v.
Proof.
  intros Hge. unfold cycle.
  destruct (window_reset st (ci_now inp)) as [st1 ev1]; cbn [fst snd] in *.
  destruct (Z.ltb_spec (requests_made st1) RATE_LIMIT_REQUESTS); [lia|reflexivity].
Qed.

Lemma cycle_gate v names st inp :
  let evs := snd (cycle v names st inp) in
  (hd_error evs = Some WindowReset <->
     (inject_Z RATE_LIMIT_WINDOW <= ci_now inp - window_start_time st)%Q) /\
  (In Request evs <->
     (requests_made (fst (window_reset st (ci_now inp))) < RATE_LIMIT_REQUESTS)%Z).
Proof.
  cbv zeta.
  destruct (Z.lt_ge_cases (requests_made (fst (window_reset st (ci_now inp))))
              RATE_LIMIT_REQUESTS) as [Hlt|Hge].
  - destruct (cycle_open_shape v names st inp Hlt) as [rest ->].
    unfold window_reset in *. rewrite <- Qle_bool_iff.
    destruct (Qle_bool _ _); simpl; split; split; intros; auto; discriminate.
  - rewrite (cycle_closed_shape v names st inp Hge).
    pose proof (not_in_request_wait v). pose proof (hd_wait_phase v).
    unfold window_reset in *. rewrite <- Qle_bool_iff.
    destruct (Qle_bool _ _); simpl in *; split; split; intros; try tauto; try lia;
      try congruence.
    destruct H1 as [H1|H1]; [discriminate|tauto].
Qed.

(** ** C2: the rate-window gate *)

(** C2. After any run of the loop from its initial state, [requests_made]
    is the number of requests recorded since the last window reset; in the
    next cycle the window is reset first (the cycle's first event is
    [WindowReset]) exactly when at least [RATE_LIMIT_WINDOW] seconds have
    elapsed since [window_start_time], and the cycle issues a fetch request
    exactly when that reset happens or fewer than [RATE_LIMIT_REQUESTS] = 15
    requests have been recorded since the last reset. *)
Theorem C2_rate_window_gate v names t0 inps inp :
  let st := fst (run v names (init_state t0) inps) in
  let tr := snd (run v names (init_state t0) inps) in
  let evs := snd (cycle v names st inp) in
  count_since_reset tr = Z.to_nat (requests_made st) /\
  (hd_error evs = Some WindowReset <->
     (inject_Z RATE_LIMIT_WINDOW <= ci_now inp - window_start_time st)%Q) /\
  (In Request evs <->
     (inject_Z RATE_LIMIT_WINDOW <= ci_now inp - window_start_time st)%Q \/
     (count_since_reset tr < Z.to_nat RATE_LIMIT_REQUESTS)%nat).
Proof.
  cbv zeta.
  pose proof (run_counter v names (init_state t0) inps) as Hr.
  pose proof (cycle_gate v names (fst (run v names (init_state t0) inps)) inp) as Hg.
  destruct (run v names (init_state t0) inps) as [st tr]. cbn [fst snd] in *.
  destruct Hr as (H1 & H2 & _); [unfold RATE_LIMIT_REQUESTS; simpl; lia|].
  change (Z.to_nat (requests_made (init_state t0))) with 0%nat in H2.
  unfold count_since_reset. rewrite H2.
  destruct Hg as [Hh Hq]. split; [reflexivity|]. split; [exact Hh|].
  rewrite Hq. unfold window_reset, RATE_LIMIT_REQUESTS in *. rewrite <- Qle_bool_iff.
  destruct (Qle_bool _ _); simpl; split; intros Hx; try tauto; try lia.
Qed.

(** ** C8: the counter stays within the quota *)

(** C8. At every cycle boundary of every run from the initial state,
    [0 <= requests_made <= 15]; and at every point of the run's event
    trace, at most 15 requests have been recorded since the last window
    reset. *)
Theorem C8_counter_bounded v names t0 inps :
  (0 <= requests_made (fst (run v names (init_state t0) inps)) <= RATE_LIMIT_REQUESTS)%Z /\
  forall n, (count_since_reset (firstn n (snd (run v names (init_state t0) inps)))
             <= Z.to_nat RATE_LIMIT_REQUESTS)%nat.
Proof.
  pose proof (run_counter v names (init_state t0) inps) as Hr.
  destruct (run v names (init_state t0) inps) as [st tr]. cbn [fst snd] in *.
  destruct Hr as (H1 & _ & H3); [unfold RATE_LIMIT_REQUESTS; simpl; lia|].
  split; [exact H1|]. intros n.
  change (Z.to_nat (requests_made (init_state t0))) with 0%nat in H3.
  pose proof (firstn_count_le 0 n tr). unfold count_since_reset. lia.
Qed.

(** ** Strings: [in] and the rate-limit classification *)

Lemma prefix_spec (s1 s2 : string) :
  String.prefix s1 s2 = true <-> exists post, s2 = s1 +:+ post.
Proof.
  revert s1. induction s2 as [|b s2 IH]; intros [|a s1]; simpl.
  - split; [exists EmptyString; reflexivity|reflexivity].
  - split; [discriminate|intros [post Hp]; discriminate].
  - split; [intros _; exists (String b s2); reflexivity|reflexivity].
  - destruct (Ascii.ascii_dec a b) as [->|Hne].
    + rewrite IH. split; intros [post Hp]; exists post;
        rewrite ?append_cons in *; congruence.
    + split; [discriminate|intros [post Hp]; rewrite append_cons in Hp; congruence].
Qed.

Lemma str_contains_spec (needle hay : string) :
  str_contains needle hay = true <-> exists pre post, hay = pre +:+ needle +:+ post.
Proof.
  induction hay as [|c hay IH].
  - change (str_contains needle EmptyString) with (String.prefix needle EmptyString || false).
    rewrite orb_false_r, prefix_spec. split.
    + intros [post Hp]. exists EmptyString, post. exact Hp.
    + intros [[|x pre] [post Hp]]; [exists post; exact Hp|discriminate].
  - change (str_contains needle (String c hay))
      with (String.prefix needle (String c hay) || str_contains needle hay).
    rewrite orb_true_iff, prefix_spec, IH. split.
    + intros [[post Hp]|[pre [post Hp]]].
      * exists EmptyString, post. exact Hp.
      * exists (String c pre), post. rewrite append_cons. congruence.
    + intros [[|x pre] [post Hp]].
      * left. exists post. exact Hp.
      * right. exists pre, post. rewrite append_cons in Hp. congruence.
Qed.

(** ** Cycles whose fetch fails *)

Lemma cycle_fetch_error v names st inp e :
  (requests_made (fst (window_reset st (ci_now inp))) < RATE_LIMIT_REQUESTS)%Z ->
  get_latest_tweets_batch (ci_response inp) = Err e ->
  cycle v names st inp =
    (fst (handle_error v (fst (window_reset st (ci_now inp))) e inp),
     snd (window_reset st (ci_now inp)) ++ [Request] ++
     snd (handle_error v (fst (window_reset st (ci_now inp))) e inp)).
Proof.
  intros Hlt Hf. unfold cycle.
  destruct (window_reset st (ci_now inp)) as [st1 ev1]; cbn [fst snd] in *.
  apply Z.ltb_lt in Hlt. rewrite Hlt, Hf.
  destruct (handle_error v st1 e inp); reflexivity.
Qed.

(** ** C3: recovery from a quota-exceeded signal *)

(** C3 (as amended). When the fetch of a cycle raises an error classified
    as quota-exceeded, the cycle ends with [requests_made = 0] and
    [window_start_time] equal to the clock reading taken when the recovery
    completes, the dedup set untouched; before the reset it sleeps
    [int(window_start_time + RATE_LIMIT_WINDOW - now)] seconds, the remaining
    window time truncated toward zero, and does not sleep when that whole
    number is not positive. *)
Theorem C3_quota_recovery v names st inp e :
  (requests_made (fst (window_reset st (ci_now inp))) < RATE_LIMIT_REQUESTS)%Z ->
  get_latest_tweets_batch (ci_response inp) = Err e ->
  is_rate_limit_error e = true ->
  let st1 := fst (window_reset st (ci_now inp)) in
  let wait_time :=
    py_int (window_start_time st1 + inject_Z RATE_LIMIT_WINDOW - ci_handler_now inp) in
  requests_made (fst (cycle v names st inp)) = 0 /\
  window_start_time (fst (cycle v names st inp)) = ci_after_wait_now inp /\
  seen_tweets (fst (cycle v names st inp)) = seen_tweets st /\
  snd (cycle v names st inp) =
    snd (window_reset st (ci_now inp)) ++
    [Request; LogError ("Error: " +:+ e)] ++ map Report (report v ("Error: " +:+ e)) ++
    (if Z.ltb 0 wait_time then [Sleep wait_time] else []) ++ [WindowReset].
Proof.
  intros Hlt Hf Hr. cbv zeta.
  rewrite (cycle_fetch_error v names st inp e Hlt Hf).
  pose proof (window_reset_quiet st (ci_now inp)) as [_ Hs].
  unfold handle_error. rewrite Hr. cbn [fst snd seen_tweets requests_made window_start_time].
  split_and!; auto.
Qed.

Definition quota_at_899_5 : cycle_input :=
  mk_input 100 (mk_response 429 "" []) (Qmake 1799 2) 900.

(** C3 counterexample: the window started at 0 and the quota signal is
    handled at 899.5 s, so half a second of the window remains, yet the
    loop performs no wait at all ([int(0.5) = 0]). *)
Lemma C3_counterexample :
  (0 < 0 + inject_Z RATE_LIMIT_WINDOW - ci_handler_now quota_at_899_5)%Q /\
  forall w, ~ In (Sleep w) (snd (cycle telegram ab_names (init_state 0) quota_at_899_5)).
Proof.
  split; [vm_compute; reflexivity|].
  intros w H. vm_compute in H.
  repeat (destruct H as [H|H]; [discriminate|]). exact H.
Qed.

Lemma C3_witness :
  requests_made (fst (cycle telegram ab_names (init_state 0) quota_at_899_5)) = 0 /\
  window_start_time (fst (cycle telegram ab_names (init_state 0) quota_at_899_5)) = 900%Q.
Proof.
  destruct (C3_quota_recovery telegram ab_names (init_state 0) quota_at_899_5
              "Rate limit exceeded") as (H1 & H2 & _);
    [vm_compute; reflexivity | reflexivity | vm_compute; reflexivity |].
  split; [exact H1 | exact H2].
Defined.

(** ** C6: the quota-exceeded signal and its detection *)

(** C6. [get_latest_tweets_batch] raises ["Rate limit exceeded"] exactly on
    status 429, raises ["Failed to get tweets: " + response.text] on every
    other non-200 status, and returns the posts on 200; the handler treats
    a caught error as quota-exceeded (it ends by resetting the window
    instead of sleeping one interval) exactly when the lower-cased message
    contains ["rate limit"], so that a generic failure whose text contains
    ["Rate Limit"] is treated as quota-exceeded too. *)
Theorem C6_quota_signal :
  (forall r, get_latest_tweets_batch r = Err "Rate limit exceeded" <-> status_code r = 429) /\
  (forall r, status_code r <> 429 -> status_code r <> 200 ->
     get_latest_tweets_batch r = Err ("Failed to get tweets: " +:+ resp_text r)) /\
  (forall r, status_code r = 200 -> get_latest_tweets_batch r = Ok (resp_data r)) /\
  (forall e, is_rate_limit_error e = true <->
     exists pre post, py_lower e = pre +:+ "rate limit" +:+ post) /\
  (forall v st e inp,
     (exists pre, snd (handle_error v st e inp) = pre ++ [WindowReset]) <->
     is_rate_limit_error e = true) /\
  (forall v st e inp,
     is_rate_limit_error e = false ->
     snd (handle_error v st e inp) =
       LogError ("Error: " +:+ e) :: map Report (report v ("Error: " +:+ e)) ++
       [Sleep (CHECK_INTERVAL v)]) /\
  is_rate_limit_error ("Failed to get tweets: " +:+ "Rate Limit reached") = true.
Proof.
  split_and!.
  - intros r. unfold get_latest_tweets_batch.
    destruct (Z.eqb_spec (status_code r) 429); [split; auto|].
    destruct (Z.eqb_spec (status_code r) 200); simpl; split; intros H; try congruence.
    injection H as H. discriminate H.
  - intros r H1 H2. unfold get_latest_tweets_batch.
    destruct (Z.eqb_spec (status_code r) 429); [contradiction|].
    destruct (Z.eqb_spec (status_code r) 200); [contradiction|reflexivity].
  - intros r H. unfold get_latest_tweets_batch. rewrite H. reflexivity.
  - intros e. apply str_contains_spec.
  - intros v st e inp. unfold handle_error. cbv zeta.
    destruct (is_rate_limit_error e); cbn [snd]; split; intros H; auto.
    + eexists. rewrite app_assoc. reflexivity.
    + destruct H as [pre Hp].
      apply app_inj_tail in Hp as [_ Hp]. discriminate.
    + discriminate.
  - intros v st e inp H. unfold handle_error. rewrite H. reflexivity.
  - vm_compute. reflexivity.
Qed.

(** ** C7: recovery from any other fetch failure *)

(** C7 (as amended). When the fetch of a cycle raises an error not
    classified as quota-exceeded, the cycle logs ["Error: " + e], forwards
    it to the sink only in the Telegram script (as ["❌ Error: " + e]; the
    audio script only logs it), then sleeps exactly [CHECK_INTERVAL]
    seconds (60 in kol_moniter.py, 180 in monitor_kol_tweets.py) and
    returns normally with the state left by the window reset, so the next
    iteration of the loop runs. *)
Theorem C7_transient_error v names st inp e :
  (requests_made (fst (window_reset st (ci_now inp))) < RATE_LIMIT_REQUESTS)%Z ->
  get_latest_tweets_batch (ci_response inp) = Err e ->
  is_rate_limit_error e = false ->
  cycle v names st inp =
    (fst (window_reset st (ci_now inp)),
     snd (window_reset st (ci_now inp)) ++
     [Request; LogError ("Error: " +:+ e)] ++ map Report (report v ("Error: " +:+ e)) ++
     [Sleep (CHECK_INTERVAL v)]) /\
  map Report (report telegram ("Error: " +:+ e)) =
    [Report (SendMessage ("❌ " +:+ "Error: " +:+ e))] /\
  report audio ("Error: " +:+ e) = [] /\
  CHECK_INTERVAL telegram = 60 /\ CHECK_INTERVAL audio = 180.
Proof.
  intros Hlt Hf Hr.
  rewrite (cycle_fetch_error v names st inp e Hlt Hf).
  unfold handle_error. rewrite Hr. split_and!; reflexivity.
Qed.

Definition server_error : cycle_input := at_time 0 (mk_response 500 "oops" []).

(** C7 counterexample: in the audio script a 500 response is logged but no
    sink call is made. *)
Lemma C7_counterexample :
  In (LogError "Error: Failed to get tweets: oops")
     (snd (cycle audio ab_names (init_state 0) server_error)) /\
  sink_calls (snd (cycle audio ab_names (init_state 0) server_error)) = [].
Proof. split; [vm_compute; tauto | vm_compute; reflexivity]. Qed.

Lemma C7_witness :
  fst (cycle telegram ab_names (init_state 0) server_error) = init_state 0.
Proof.
  destruct (C7_transient_error telegram ab_names (init_state 0) server_error
              "Failed to get tweets: oops") as [H _];
    [vm_compute; reflexivity | reflexivity | vm_compute; reflexivity |].
  rewrite H. vm_compute. reflexivity.
Defined.

Lemma C6_witness :
  get_latest_tweets_batch (mk_response 429 "" []) = Err "Rate limit exceeded" /\
  get_latest_tweets_batch (mk_response 503 "down" []) = Err ("Failed to get tweets: " +:+ "down") /\
  get_latest_tweets_batch (ok_response [p1]) = Ok [p1] /\
  snd (handle_error telegram (init_state 0) "Failed to get tweets: down" server_error) =
    LogError ("Error: " +:+ "Failed to get tweets: down") ::
    map Report (report telegram ("Error: " +:+ "Failed to get tweets: down")) ++
    [Sleep (CHECK_INTERVAL telegram)].
Proof.
  destruct C6_quota_signal as (H1 & H2 & H3 & _ & _ & H6 & _).
  split_and!.
  - apply (proj2 (H1 (mk_response 429 "" []))). reflexivity.
  - apply (H2 (mk_response 503 "down" [])); discriminate.
  - apply (H3 (ok_response [p1])). reflexivity.
  - apply H6. vm_compute. reflexivity.
Defined.

Lemma quiet_no_alert evs tid c : Forall quiet evs -> ~ In (Alert tid c) evs.
Proof.
  intros Hq Hin. destruct (proj1 (List.Forall_forall quiet evs) Hq _ Hin) as [Ha _].
  exact (Ha tid c eq_refl).
Qed.

Lemma map_report_not_record l : Forall (fun e => e <> Record) (map Report l).
Proof. induction l; simpl; constructor; [discriminate|auto]. Qed.

Lemma handle_error_no_record v st e inp : ~ In Record (snd (handle_error v st e inp)).
Proof.
  intros H.
  refine (proj1 (List.Forall_forall (fun e => e <> Record) _) _ Record H eq_refl).
  unfold handle_error. cbv zeta.
  destruct (is_rate_limit_error e); cbn [snd];
    (constructor; [discriminate|]);
    repeat (apply Forall_app; split); try apply map_report_not_record;
    try (destruct (Z.ltb _ _));
    repeat (constructor; [discriminate|]); constructor.
Qed.

Lemma window_reset_no_record st now : ~ In Record (snd (window_reset st now)).
Proof.
  destruct (window_reset_cases st now) as [-> | ->]; simpl; [tauto|].
  intros [H|[]]; discriminate.
Qed.

(** ** C9: a failed fetch changes neither the dedup set nor the quota *)

(** C9. When the fetch of a cycle raises, the cycle leaves the dedup set
    as it was, records no request (no [Record] event: the counter is never
    incremented; it ends as it was after the window reset, or 0 after a
    quota-exceeded recovery), and delivers no post. *)
Theorem C9_failed_fetch v names st inp e :
  (requests_made (fst (window_reset st (ci_now inp))) < RATE_LIMIT_REQUESTS)%Z ->
  get_latest_tweets_batch (ci_response inp) = Err e ->
  seen_tweets (fst (cycle v names st inp)) = seen_tweets st /\
  ~ In Record (snd (cycle v names st inp)) /\
  (forall tid c, ~ In (Alert tid c) (snd (cycle v names st inp))) /\
  requests_made (fst (cycle v names st inp)) =
    (if is_rate_limit_error e then 0 else requests_made (fst (window_reset st (ci_now inp)))).
Proof.
  intros Hlt Hf.
  rewrite (cycle_fetch_error v names st inp e Hlt Hf). cbn [fst snd].
  pose proof (window_reset_quiet st (ci_now inp)) as [Hq1 Hs].
  pose proof (handle_error_quiet v (fst (window_reset st (ci_now inp))) e inp) as [Hq2 Hs2].
  split_and!.
  - rewrite Hs2. exact Hs.
  - rewrite !in_app_iff. intros [H|[[H|[]]|H]];
      [exact (window_reset_no_record _ _ H)|discriminate|exact (handle_error_no_record _ _ _ _ H)].
  - intros tid c. rewrite !in_app_iff. intros [H|[[H|[]]|H]];
      [exact (quiet_no_alert _ _ _ Hq1 H)|discriminate|exact (quiet_no_alert _ _ _ Hq2 H)].
  - unfold handle_error. destruct (is_rate_limit_error e); reflexivity.
Qed.

Lemma C9_witness :
  seen_tweets (fst (cycle telegram ab_names (init_state 0) quota_at_899_5)) = ∅ /\
  requests_made (fst (cycle telegram ab_names (init_state 0) quota_at_899_5)) = 0.
Proof.
  destruct (C9_failed_fetch telegram ab_names (init_state 0) quota_at_899_5
              "Rate limit exceeded") as (H1 & _ & _ & H4);
    [vm_compute; reflexivity | reflexivity |].
  split; [exact H1|]. rewrite H4. reflexivity.
Defined.

(** ** Delivery of a batch whose authors are all known *)

Lemma deliver_batch_known v names seen tweets :
  Forall (fun t => names !! tw_author_id t <> None) tweets ->
  exists evs, deliver_batch v names seen tweets =
              (seen ∪ list_to_set (map tw_id tweets), evs, None) /\
              Forall (fun e => e <> SeenCleared) evs.
Proof.
  intros Hk. revert seen. induction Hk as [|t rest Ht _ IH]; intros seen; simpl.
  - exists []. split; [|constructor]. f_equal. f_equal. set_solver.
  - destruct (decide (tw_id t ∈ seen)) as [Hin|Hnin].
    + destruct (IH seen) as [evs [-> Hf]]. exists evs. split; [|exact Hf].
      do 2 f_equal. set_solver.
    + destruct (names !! tw_author_id t) as [u|]; [|contradiction].
      destruct (IH ({[tw_id t]} ∪ seen)) as [evs [-> Hf]].
      exists (Alert (tw_id t) (deliver v u t) :: evs). split.
      * do 2 f_equal. set_solver.
      * constructor; [discriminate|exact Hf].
Qed.

Lemma deliver_batch_complete v names seen tweets :
  snd (deliver_batch v names seen tweets) = None ->
  exists evs, deliver_batch v names seen tweets =
              (seen ∪ list_to_set (map tw_id tweets), evs, None) /\
              Forall (fun e => e <> SeenCleared) evs.
Proof.
  revert seen. induction tweets as [|t rest IH]; intros seen Hn; simpl in *.
  - exists []. split; [|constructor]. f_equal. f_equal. set_solver.
  - destruct (decide (tw_id t ∈ seen)) as [Hin|Hnin].
    + destruct (IH seen Hn) as [evs [-> Hf]]. exists evs. split; [|exact Hf].
      do 2 f_equal. set_solver.
    + destruct (names !! tw_author_id t) as [u|]; [|discriminate Hn].
      destruct (IH ({[tw_id t]} ∪ seen)) as [evs [Hd Hf]].
      { destruct (deliver_batch v names ({[tw_id t]} ∪ seen) rest) as [[? ?] ?]. exact Hn. }
      rewrite Hd. exists (Alert (tw_id t) (deliver v u t) :: evs). split.
      * do 2 f_equal. set_solver.
      * constructor; [discriminate|exact Hf].
Qed.

Lemma window_reset_not_cleared st now :
  Forall (fun e => e <> SeenCleared) (snd (window_reset st now)).
Proof.
  destruct (window_reset_cases st now) as [-> | ->]; simpl; repeat constructor; discriminate.
Qed.

Lemma wait_not_cleared v : Forall (fun e => e <> SeenCleared) (wait_phase v).
Proof.
  unfold wait_phase. induction (Z.to_nat (CHECK_INTERVAL v)); simpl; constructor;
    [discriminate|exact IHn].
Qed.

Lemma not_in_of_forall (x : event) l : Forall (fun e => e <> x) l -> ~ In x l.
Proof.
  intros Hf Hin. exact (proj1 (List.Forall_forall _ l) Hf x Hin eq_refl).
Qed.

(** ** C4: clearing the dedup set above 1000 entries *)

(** C4. When a cycle fetches posts and processes the whole batch (no post
    makes the delivery raise), the dedup set it
    leaves is empty if the set after the batch has more than 1000 entries
    (the cycle then emits [SeenCleared]), and is that set unchanged
    otherwise; the window reset at the top of the next cycle does not touch
    it, so the next batch is checked against it. *)
Theorem C4_clear_over_1000 v names st inp tweets :
  (requests_made (fst (window_reset st (ci_now inp))) < RATE_LIMIT_REQUESTS)%Z ->
  get_latest_tweets_batch (ci_response inp) = Ok tweets ->
  snd (deliver_batch v names (seen_tweets st) tweets) = None ->
  let s' := seen_tweets st ∪ list_to_set (map tw_id tweets) in
  seen_tweets (fst (cycle v names st inp)) = (if Nat.ltb 1000 (size s') then ∅ else s') /\
  (In SeenCleared (snd (cycle v names st inp)) <-> (1000 < size s')%nat) /\
  (forall now, seen_tweets (fst (window_reset (fst (cycle v names st inp)) now)) =
               seen_tweets (fst (cycle v names st inp))).
Proof.
  intros Hlt Hf Hk. cbv zeta. unfold cycle.
  pose proof (window_reset_quiet st (ci_now inp)) as [_ Hs].
  pose proof (window_reset_not_cleared st (ci_now inp)) as Hw.
  destruct (window_reset st (ci_now inp)) as [st1 ev1]; cbn [fst snd] in *.
  apply Z.ltb_lt in Hlt. rewrite Hlt, Hf. cbn [seen_tweets requests_made window_start_time].
  rewrite <- Hs in Hk.
  destruct (deliver_batch_complete v names (seen_tweets st1) tweets Hk) as [evd [Hd Hnd]].
  rewrite Hd, Hs. pose proof (wait_not_cleared v) as Hwt.
  destruct (Nat.ltb_spec 1000 (size (seen_tweets st ∪ list_to_set (map tw_id tweets))));
    cbn [fst snd seen_tweets]; split_and!; try reflexivity.
  - split; [lia|]. intros _. rewrite !in_app_iff. simpl. tauto.
  - intros now. exact (proj2 (window_reset_quiet _ now)).
  - split; [|lia]. rewrite !in_app_iff. simpl.
    intros Hi; exfalso;
      repeat match goal with Hd : _ \/ _ |- _ => destruct Hd as [Hd|Hd] end;
      try discriminate; try contradiction;
      first [exact (not_in_of_forall _ _ Hw Hi) | exact (not_in_of_forall _ _ Hnd Hi)
            | exact (not_in_of_forall _ _ Hwt Hi)].
  - intros now. exact (proj2 (window_reset_quiet _ now)).
Qed.

Lemma C4_witness :
  let s' := seen_tweets flood_state_1000 ∪ list_to_set (map tw_id [flood_post 1000]) in
  seen_tweets (fst (cycle telegram ab_names flood_state_1000 flood_input_1000)) =
    (if Nat.ltb 1000 (size s') then ∅ else s').
Proof.
  destruct (C4_clear_over_1000 telegram ab_names flood_state_1000 flood_input_1000
              [flood_post 1000]) as [H _];
    [reflexivity | reflexivity | |].
  - destruct (deliver_batch_known telegram ab_names (seen_tweets flood_state_1000)
                [flood_post 1000]) as [evs [Hd _]]; [repeat constructor; discriminate|].
    rewrite Hd. reflexivity.
  - exact H.
Defined.

(** ** C5: the worked example *)

(** C5. With handles "a" and "b" resolved to ids "1" and "2", a cycle whose
    fetch returns exactly [p1] = {id "p1", author "1", text "hi"} while "p1"
    is not in the dedup set makes exactly one sink call, in either script;
    its text names "@a", contains "hi" and the permalink of "p1". *)
Theorem C5_single_notification v st inp :
  v = telegram \/ v = audio ->
  (requests_made (fst (window_reset st (ci_now inp))) < RATE_LIMIT_REQUESTS)%Z ->
  get_latest_tweets_batch (ci_response inp) = Ok [p1] ->
  tw_id p1 ∉ seen_tweets st ->
  sink_calls (snd (cycle v ab_names st inp)) = [deliver v "a" p1] /\
  str_contains "@a" (sink_text (deliver v "a" p1)) = true /\
  str_contains "hi" (sink_text (deliver v "a" p1)) = true /\
  str_contains (tweet_url p1) (sink_text (deliver v "a" p1)) = true /\
  str_contains "p1" (tweet_url p1) = true.
Proof.
  intros Hv Hlt Hf Hn. split.
  - unfold cycle.
    pose proof (window_reset_quiet st (ci_now inp)) as [_ Hs].
    pose proof (sink_calls_window_reset st (ci_now inp)) as Hw.
    destruct (window_reset st (ci_now inp)) as [st1 ev1]; cbn [fst snd] in *.
    apply Z.ltb_lt in Hlt. rewrite Hlt, Hf. cbn [seen_tweets requests_made window_start_time].
    cbn [deliver_batch]. rewrite Hs.
    destruct (decide (tw_id p1 ∈ seen_tweets st)) as [Hin|_]; [contradiction|].
    assert (Ha : ab_names !! tw_author_id p1 = Some "a") by (vm_compute; reflexivity).
    rewrite Ha. cbn [fst snd].
    destruct (Nat.ltb _ _); cbn [fst snd];
      unfold wait_phase; rewrite !sink_calls_app, Hw, sink_calls_repeat_sleep;
      reflexivity.
  - destruct Hv as [-> | ->]; vm_compute; split_and!; reflexivity.
Qed.

Lemma C5_witness :
  sink_calls (snd (cycle audio ab_names (init_state 0) (at_time 0 (ok_response [p1])))) =
    [deliver audio "a" p1].
Proof.
  apply (C5_single_notification audio (init_state 0) (at_time 0 (ok_response [p1])));
    [right; reflexivity | vm_compute; reflexivity | reflexivity | vm_compute; discriminate].
Defined.

(** ** C10: ids enter the dedup set before delivery *)

Lemma deliver_batch_stray v names seen pre p post :
  tw_id p ∉ seen ->
  names !! tw_author_id p = None ->
  Forall (fun t => tw_id t ∈ seen \/ (tw_id t <> tw_id p /\ names !! tw_author_id t <> None)) pre ->
  exists seen' evs,
    deliver_batch v names seen (pre ++ p :: post) =
      (seen', evs, Some (key_error_msg (tw_author_id p))) /\
    tw_id p ∈ seen' /\ forall c, ~ In (Alert (tw_id p) c) evs.
Proof.
  intros Hp Hn Hpre. revert seen Hp Hpre.
  induction pre as [|t pre IH]; intros seen Hp Hpre; simpl.
  - destruct (decide (tw_id p ∈ seen)); [contradiction|]. rewrite Hn.
    eexists _, []. split; [reflexivity|]. split; [set_solver|]. intros c [].
  - inversion Hpre as [|? ? Ht Hrest]; subst.
    destruct (decide (tw_id t ∈ seen)) as [Hin|Hnin].
    + apply IH; auto.
    + destruct Ht as [Ht|[Hne Hk]]; [contradiction|].
      destruct (names !! tw_author_id t) as [u|]; [|contradiction].
      destruct (IH ({[tw_id t]} ∪ seen)) as (seen' & evs & Hd & Hin' & Hna);
        [set_solver| |].
      { eapply Forall_impl; [exact Hrest|]. intros x [Hx|Hx]; [left; set_solver|right; exact Hx]. }
      rewrite Hd. eexists _, _. split; [reflexivity|]. split; [exact Hin'|].
      intros c [Hc|Hc]; [injection Hc as Hc; congruence|exact (Hna c Hc)].
Qed.

(** C10. If, in a cycle that fetches [pre ++ p :: post], the post [p] is new,
    the posts before it do not make the delivery raise nor carry its id,
    and its author is not in the handle map, then the lookup raises after
    [p]'s id has been inserted: the cycle ends with the id in the dedup set
    and without delivering [p]; and in every later run of the loop a
    delivery of that id is preceded by a clear of the dedup set. *)
Theorem C10_inserted_before_delivery v names st inp pre p post :
  (requests_made (fst (window_reset st (ci_now inp))) < RATE_LIMIT_REQUESTS)%Z ->
  get_latest_tweets_batch (ci_response inp) = Ok (pre ++ p :: post) ->
  tw_id p ∉ seen_tweets st ->
  names !! tw_author_id p = None ->
  Forall (fun t => tw_id t ∈ seen_tweets st \/
                   (tw_id t <> tw_id p /\ names !! tw_author_id t <> None)) pre ->
  tw_id p ∈ seen_tweets (fst (cycle v names st inp)) /\
  (forall c, ~ In (Alert (tw_id p) c) (snd (cycle v names st inp))) /\
  (forall inps j c,
     nth_error (snd (run v names (fst (cycle v names st inp)) inps)) j =
       Some (Alert (tw_id p) c) ->
     exists k, (k < j)%nat /\
       nth_error (snd (run v names (fst (cycle v names st inp)) inps)) k = Some SeenCleared).
Proof.
  intros Hlt Hf Hp Hn Hpre.
  assert (Hc : tw_id p ∈ seen_tweets (fst (cycle v names st inp)) /\
               forall c, ~ In (Alert (tw_id p) c) (snd (cycle v names st inp))).
  { unfold cycle.
    pose proof (window_reset_quiet st (ci_now inp)) as [Hq1 Hs].
    destruct (window_reset st (ci_now inp)) as [st1 ev1]; cbn [fst snd] in *.
    apply Z.ltb_lt in Hlt. rewrite Hlt, Hf. cbn [seen_tweets requests_made window_start_time].
    rewrite Hs.
    destruct (deliver_batch_stray v names (seen_tweets st) pre p post Hp Hn Hpre)
      as (seen' & evs & Hd & Hin & Hna).
    rewrite Hd.
    match goal with
    | |- context [handle_error v ?s ?e inp] =>
        pose proof (handle_error_quiet v s e inp) as [Hq2 Hs2];
        destruct (handle_error v s e inp) as [st' evh]
    end.
    cbn [fst snd] in *. split; [rewrite Hs2; exact Hin|].
    intros c. rewrite !in_app_iff. intros [H|[[H|[H|[]]]|[H|H]]];
      [exact (quiet_no_alert _ _ _ Hq1 H)|discriminate|discriminate
      |exact (Hna c H)|exact (quiet_no_alert _ _ _ Hq2 H)]. }
  destruct Hc as [Hin Hna]. split_and!; [exact Hin|exact Hna|].
  intros inps j c Hj.
  pose proof (run_steps v names (fst (cycle v names st inp)) inps) as Hr.
  destruct (run v names (fst (cycle v names st inp)) inps) as [st2 tr]. cbn [snd] in *.
  exact (proj1 (dedup_sound _ _ _ Hr) j (tw_id p) c Hj Hin).
Qed.

Lemma C10_witness :
  tw_id stray ∈ seen_tweets (fst (cycle telegram ab_names (init_state 0)
                                    (at_time 0 (ok_response [stray; p1])))).
Proof.
  destruct (C10_inserted_before_delivery telegram ab_names (init_state 0)
              (at_time 0 (ok_response [stray; p1])) [] stray [p1]) as [H _];
    [vm_compute; reflexivity | reflexivity | vm_compute; discriminate
    | vm_compute; reflexivity | constructor |].
  exact H.
Defined.

(** ** Start-up: user ids, the reverse map and the search query *)

Lemma str_append_assoc (a b c : string) : (a +:+ b) +:+ c = a +:+ (b +:+ c).
Proof.
  induction a as [|x a IH]; [reflexivity|]. rewrite !append_cons, IH. reflexivity.
Qed.

Lemma str_append_nil (a : string) : a +:+ "" = a.
Proof. induction a as [|x a IH]; [reflexivity|]. rewrite append_cons, IH. reflexivity. Qed.

Lemma dict_get_set d k v k' :
  dict_get (dict_set d k v) k' = if String.eqb k' k then Some v else dict_get d k'.
Proof.
  induction d as [|[k1 v1] d IH]; simpl; [reflexivity|].
  destruct (String.eqb k k1) eqn:E1; simpl.
  - apply String.eqb_eq in E1; subst k1. destruct (String.eqb k' k); reflexivity.
  - rewrite IH. destruct (String.eqb k' k) eqn:E2, (String.eqb k' k1) eqn:E3;
      try reflexivity.
    apply String.eqb_eq in E2, E3. subst. rewrite String.eqb_refl in E1. discriminate.
Qed.

Definition user_step (d : py_dict) (u : user) : py_dict :=
  dict_set d (py_lower (u_username u)) (u_id u).

Lemma get_user_ids_ok r :
  (exists d, get_user_ids r = Ok d) <->
  ur_status r = 200 /\ exists users, ur_data r = Some users /\
                      get_user_ids r = Ok (foldl user_step [] users).
Proof.
  unfold get_user_ids. destruct (Z.eqb_spec (ur_status r) 200) as [Hs|Hs]; simpl.
  - destruct (ur_data r) as [users|].
    + split; [intros _; split; [exact Hs|exists users; split; reflexivity]|].
      intros _. eexists. reflexivity.
    + split; [intros [d Hd]; discriminate|intros [_ [users [Hu _]]]; discriminate].
  - split; [intros [d Hd]; discriminate|intros [H _]; contradiction].
Qed.

Lemma user_fold_get users k :
  dict_get (foldl user_step [] users) k =
  option_map u_id (last (List.filter (fun u => String.eqb k (py_lower (u_username u))) users)).
Proof.
  induction users as [|u users IH] using rev_ind; [reflexivity|].
  rewrite foldl_snoc, List.filter_app. unfold user_step at 1. rewrite dict_get_set. simpl.
  destruct (String.eqb k (py_lower (u_username u))).
  - rewrite last_snoc. reflexivity.
  - rewrite app_nil_r. exact IH.
Qed.

Lemma py_join_elem sep l x :
  x ∈ l -> exists pre post, py_join sep l = pre +:+ x +:+ post.
Proof.
  induction l as [|y l IH]; intros Hx; [apply elem_of_nil in Hx as []|].
  apply elem_of_cons in Hx.
  destruct l as [|z l'].
  - destruct Hx as [->|Hx]; [|apply elem_of_nil in Hx as []].
    exists "", "". rewrite append_empty, str_append_nil. reflexivity.
  - change (py_join sep (y :: z :: l')) with (y +:+ sep +:+ py_join sep (z :: l')).
    destruct Hx as [->|Hx].
    + exists "", (sep +:+ py_join sep (z :: l')). rewrite append_empty. reflexivity.
    + destruct (IH Hx) as (pre & post & ->).
      exists (y +:+ sep +:+ pre), post. rewrite !str_append_assoc. reflexivity.
Qed.

Definition three_users : list user :=
  [mk_user "Alice" "1"; mk_user "bob" "2"; mk_user "ALICE" "3"].

Definition three_users_response : users_response :=
  mk_users_response 200 "" (Some three_users).

(** Extra: in the dict returned by [get_user_ids], the value at key [k] is the
    id of the LAST user of ['data'] whose lowercased username is [k] (later
    entries overwrite earlier ones), and there is no value when no username
    lowercases to [k]. *)
Theorem get_user_ids_lookup r d users k :
  get_user_ids r = Ok d -> ur_data r = Some users ->
  dict_get d k =
  option_map u_id (last (List.filter (fun u => String.eqb k (py_lower (u_username u))) users)).
Proof.
  intros Hd Hu. destruct (proj1 (get_user_ids_ok r) (ex_intro _ d Hd)) as [_ [users' [Hu' Hg]]].
  rewrite Hu in Hu'. injection Hu' as <-. rewrite Hg in Hd. injection Hd as <-.
  apply user_fold_get.
Qed.

Lemma get_user_ids_lookup_witness :
  dict_get [("alice", "3"); ("bob", "2")] "alice" =
  option_map u_id (last (List.filter (fun u => String.eqb "alice" (py_lower (u_username u)))
                           three_users)).
Proof. apply (get_user_ids_lookup three_users_response); reflexivity. Defined.

(** Extra: [id_to_username = {v: k for k, v in user_map.items()}] maps an id
    to the handle of the LAST entry of [user_map] with that id, and has no
    entry for an id that is not a value of [user_map]. *)
Theorem id_to_username_lookup user_map uid :
  id_to_username user_map !! uid =
  option_map fst (last (List.filter (fun p => String.eqb uid (snd p)) user_map)).
Proof.
  unfold id_to_username.
  induction user_map as [|[k v] user_map IH] using rev_ind; [reflexivity|].
  rewrite foldl_snoc, List.filter_app, lookup_insert. simpl.
  destruct (decide (v = uid)) as [->|Hne].
  - rewrite String.eqb_refl, last_snoc. reflexivity.
  - destruct (String.eqb_spec uid v) as [->|_]; [contradiction|].
    rewrite app_nil_r. exact IH.
Qed.

(** Extra: the search query [(from:id1 OR from:id2 ...)] names every
    monitored user id, and the users URL names every handle. *)
Theorem search_query_mentions user_ids usernames :
  (forall uid, uid ∈ user_ids -> str_contains ("from:" +:+ uid) (search_query user_ids) = true) /\
  (forall h, h ∈ usernames -> str_contains h (users_url usernames) = true).
Proof.
  split.
  - intros uid Hin. apply str_contains_spec.
    destruct (py_join_elem " OR " (map (fun uid => "from:" +:+ uid) user_ids) ("from:" +:+ uid))
      as (pre & post & Hj); [apply list_elem_of_In, in_map, list_elem_of_In, Hin|].
    exists ("(" +:+ pre), (post +:+ ")"). unfold search_query. rewrite Hj.
    rewrite !str_append_assoc. reflexivity.
  - intros h Hin. apply str_contains_spec.
    destruct (py_join_elem "," usernames h Hin) as (pre & post & Hj).
    exists ("https://api.twitter.com/2/users/by?usernames=" +:+ pre), post.
    unfold users_url. rewrite Hj, !str_append_assoc. reflexivity.
Qed.

(** ** Telegram delivery and the start of the monitor *)

Lemma id_to_username_last user_map uid :
  id_to_username user_map !! uid =
  option_map fst (last (List.filter (fun p => String.eqb uid (snd p)) user_map)).
Proof.
  unfold id_to_username.
  induction user_map as [|[k v] user_map IH] using rev_ind; [reflexivity|].
  rewrite foldl_snoc, List.filter_app, lookup_insert. simpl.
  destruct (decide (v = uid)) as [->|Hne].
  - rewrite String.eqb_refl, last_snoc. reflexivity.
  - destruct (String.eqb_spec uid v) as [->|_]; [contradiction|].
    rewrite app_nil_r. exact IH.
Qed.

Lemma id_to_username_some user_map uid :
  uid ∈ map snd user_map -> is_Some (id_to_username user_map !! uid).
Proof.
  rewrite id_to_username_last.
  induction user_map as [|[k v] user_map IH] using rev_ind;
    [intros H; apply elem_of_nil in H as []|].
  rewrite map_app, elem_of_app, List.filter_app. simpl.
  destruct (String.eqb_spec uid v) as [->|Hne].
  - rewrite last_snoc. eexists. reflexivity.
  - rewrite app_nil_r. intros [H|H]; [exact (IH H)|].
    apply list_elem_of_singleton in H. contradiction.
Qed.

(** Extra: as long as no send raises a non-Telegram exception, the Telegram
    delivery loop is the loop of the model ([deliver_batch telegram]): the
    same dedup set and exception, and for each alert, in order, one send
    attempt, the logged and printed Telegram error if that send failed, and
    then the "Sent alert" log line, which is written even after a failed
    send. *)
Theorem deliver_batch_tg_refines names outcome seen tweets :
  (forall tid e, outcome tid <> OtherFailure e) ->
  deliver_batch_tg names outcome seen tweets =
  (fst (fst (deliver_batch telegram names seen tweets)),
   flat_map (alert_actions outcome) (alerts (snd (fst (deliver_batch telegram names seen tweets)))),
   snd (deliver_batch telegram names seen tweets)).
Proof.
  intros Hno. induction tweets as [|t rest IH] in seen |- *; simpl; [reflexivity|].
  destruct (decide (tw_id t ∈ seen)); [apply IH|].
  destruct (names !! tw_author_id t) as [u|]; [|reflexivity].
  destruct (outcome (tw_id t)) eqn:Ho; [| |exfalso; exact (Hno _ _ Ho)]; simpl;
    rewrite IH; destruct (deliver_batch telegram names ({[tw_id t]} ∪ seen) rest)
      as [[s2 e2] x2]; simpl; rewrite Ho; reflexivity.
Qed.

Lemma deliver_batch_tg_refines_witness :
  deliver_batch_tg ab_names (fun _ => TelegramFailure "timeout") ∅ [p1] =
  (fst (fst (deliver_batch telegram ab_names ∅ [p1])),
   flat_map (alert_actions (fun _ => TelegramFailure "timeout"))
     (alerts (snd (fst (deliver_batch telegram ab_names ∅ [p1])))),
   snd (deliver_batch telegram ab_names ∅ [p1])).
Proof. apply deliver_batch_tg_refines. intros tid e H. discriminate H. Defined.

(** Extra: if the send of the alert for a new post raises an exception other
    than a [TelegramError], the batch stops there: the exception propagates,
    the post's id is already in the dedup set, and that send is the last
    action (no later post is sent, no "Sent alert" line is logged for it). *)
Theorem deliver_batch_tg_abort names outcome seen pre p post u e :
  tw_id p ∉ seen ->
  names !! tw_author_id p = Some u ->
  outcome (tw_id p) = OtherFailure e ->
  Forall (fun t => tw_id t ∈ seen \/
                   (tw_id t <> tw_id p /\ names !! tw_author_id t <> None /\
                    forall e', outcome (tw_id t) <> OtherFailure e')) pre ->
  exists seen' acts,
    deliver_batch_tg names outcome seen (pre ++ p :: post) = (seen', acts, Some e) /\
    tw_id p ∈ seen' /\ last acts = Some (BotSend (sink_text (deliver telegram u p))).
Proof.
  intros Hp Hn Ho Hpre. induction pre as [|t pre IH] in seen, Hp, Hpre |- *; simpl.
  - destruct (decide (tw_id p ∈ seen)); [contradiction|]. rewrite Hn, Ho. simpl.
    eexists _, _. split; [reflexivity|]. split; [set_solver|reflexivity].
  - inversion Hpre as [|? ? Ht Hrest]; subst.
    destruct (decide (tw_id t ∈ seen)) as [Hin|Hnin]; [apply IH; auto|].
    destruct Ht as [Ht|(Hne & Hk & Hnf)]; [contradiction|].
    destruct (names !! tw_author_id t) as [w|]; [|contradiction].
    destruct (IH ({[tw_id t]} ∪ seen)) as (seen' & acts & Hd & Hin' & Hl); [set_solver| |].
    { eapply Forall_impl; [exact Hrest|]. intros x [Hx|Hx]; [left; set_solver|right; exact Hx]. }
    destruct (outcome (tw_id t)) eqn:Ho'; [| |exfalso; exact (Hnf _ eq_refl)]; simpl;
      rewrite Hd; eexists _, _; (split; [reflexivity|split; [exact Hin'|]]);
      rewrite !last_cons, Hl; reflexivity.
Qed.

Lemma deliver_batch_tg_abort_witness :
  exists seen' acts,
    deliver_batch_tg ab_names (fun _ => OtherFailure "boom") ∅ ([] ++ p1 :: [stray]) =
      (seen', acts, Some "boom") /\
    tw_id p1 ∈ seen' /\ last acts = Some (BotSend (sink_text (deliver telegram "a" p1))).
Proof.
  apply deliver_batch_tg_abort;
    [apply not_elem_of_empty|reflexivity|reflexivity|constructor].
Defined.

(** Extra: the Telegram monitor sends its start message before it looks the
    handles up, so a failed lookup (status code other than 200) still
    announces the start before [get_user_ids] raises; when the lookup
    succeeds, every queried user id has a handle in [id_to_username]. *)
Theorem monitor_start_tg_spec handles out users :
  (forall e, out <> OtherFailure e) ->
  In (BotSend ("🐦 Twitter Monitor Bot Started" +:+ nl +:+ nl +:+
               "Monitoring handles:" +:+ nl +:+ py_join ", " handles))
     (fst (monitor_start_tg handles out users)) /\
  (forall r, users = Got r -> ur_status r <> 200 ->
     snd (monitor_start_tg handles out users) = Err ("Failed to get user IDs: " +:+ ur_text r)) /\
  (forall r d, users = Got r -> get_user_ids r = Ok d ->
     exists names user_ids,
       snd (monitor_start_tg handles out users) = Ok (names, user_ids) /\
       forall uid, uid ∈ user_ids -> is_Some (names !! uid)).
Proof.
  intros Hno. unfold monitor_start_tg.
  destruct out as [|m|m]; [| |exfalso; exact (Hno m eq_refl)];
    (destruct users as [r0|e0]; [destruct (get_user_ids r0) as [d0|m0] eqn:E|]); simpl;
    (split; [right; left; reflexivity|split]).
  all: try (intros r Hr; discriminate Hr).
  all: try (intros r d Hr; discriminate Hr).
  all: try (intros r Hr Hs; injection Hr as <-; unfold get_user_ids in E;
            destruct (Z.eqb_spec (ur_status r0) 200) as [H|_];
            [contradiction|simpl in E; first [discriminate E|injection E as <-; reflexivity]]).
  all: try (intros r d Hr Hd; injection Hr as <-; congruence).
  all: intros r d Hr Hd; injection Hr as <-; rewrite Hd in E; injection E as <-;
       eexists _, _; split; [reflexivity|];
       intros uid Huid; apply id_to_username_some, Huid.
Qed.

Lemma monitor_start_tg_spec_witness :
  In (BotSend ("🐦 Twitter Monitor Bot Started" +:+ nl +:+ nl +:+
               "Monitoring handles:" +:+ nl +:+ py_join ", " ["alice"]))
     (fst (monitor_start_tg ["alice"] Delivered (Got three_users_response))) /\
  (forall r, Got three_users_response = Got r -> ur_status r <> 200 ->
     snd (monitor_start_tg ["alice"] Delivered (Got three_users_response)) =
     Err ("Failed to get user IDs: " +:+ ur_text r)) /\
  (forall r d, Got three_users_response = Got r -> get_user_ids r = Ok d ->
     exists names user_ids,
       snd (monitor_start_tg ["alice"] Delivered (Got three_users_response)) =
         Ok (names, user_ids) /\
       forall uid, uid ∈ user_ids -> is_Some (names !! uid)).
Proof. apply monitor_start_tg_spec. intros e H. discriminate H. Defined.

(** ** The loop: composition, sleeping, requests and the dedup set *)

Definition is_alert (e : event) : Prop := exists tid c, e = Alert tid c.

Lemma deliver_batch_alerts v names seen tweets :
  seen ⊆ fst (fst (deliver_batch v names seen tweets)) /\
  Forall is_alert (snd (fst (deliver_batch v names seen tweets))).
Proof.
  induction tweets as [|t rest IH] in seen |- *; simpl; [split; [set_solver|constructor]|].
  destruct (decide (tw_id t ∈ seen)); [apply IH|].
  destruct (names !! tw_author_id t) as [u|]; simpl; [|split; [set_solver|constructor]].
  specialize (IH ({[tw_id t]} ∪ seen)).
  destruct (deliver_batch v names ({[tw_id t]} ∪ seen) rest) as [[s2 evs] exn]; simpl in *.
  destruct IH as [Hs Ha]. split; [set_solver|].
  constructor; [eexists _, _; reflexivity|exact Ha].
Qed.

(** The four ways an iteration goes: rate-limit gate closed, fetch error,
    exception during the delivery, or a completed delivery. *)
Lemma cycle_cases v names st inp :
  cycle v names st inp =
    (fst (window_reset st (ci_now inp)),
     snd (window_reset st (ci_now inp)) ++ wait_phase v) \/
  (exists e, cycle v names st inp =
     (fst (handle_error v (fst (window_reset st (ci_now inp))) e inp),
      snd (window_reset st (ci_now inp)) ++ [Request] ++
        snd (handle_error v (fst (window_reset st (ci_now inp))) e inp))) \/
  (exists seen2 evd e,
     seen_tweets (fst (window_reset st (ci_now inp))) ⊆ seen2 /\ Forall is_alert evd /\
     cycle v names st inp =
       (fst (handle_error v
               {| seen_tweets := seen2;
                  requests_made := requests_made (fst (window_reset st (ci_now inp))) + 1;
                  window_start_time := window_start_time (fst (window_reset st (ci_now inp))) |}
               e inp),
        snd (window_reset st (ci_now inp)) ++ [Request; Record] ++ evd ++
          snd (handle_error v
               {| seen_tweets := seen2;
                  requests_made := requests_made (fst (window_reset st (ci_now inp))) + 1;
                  window_start_time := window_start_time (fst (window_reset st (ci_now inp))) |}
               e inp))) \/
  (exists seen2 evd,
     seen_tweets (fst (window_reset st (ci_now inp))) ⊆ seen2 /\ Forall is_alert evd /\
     cycle v names st inp =
       ({| seen_tweets := if Nat.ltb 1000 (size seen2) then ∅ else seen2;
           requests_made := requests_made (fst (window_reset st (ci_now inp))) + 1;
           window_start_time := window_start_time (fst (window_reset st (ci_now inp))) |},
        snd (window_reset st (ci_now inp)) ++ [Request; Record] ++ evd ++
          (if Nat.ltb 1000 (size seen2) then [SeenCleared] else []) ++ wait_phase v)).
Proof.
  unfold cycle.
  destruct (window_reset st (ci_now inp)) as [st1 ev1]; cbn [fst snd].
  destruct (Z.ltb (requests_made st1) RATE_LIMIT_REQUESTS); [|left; reflexivity].
  destruct (get_latest_tweets_batch (ci_response inp)) as [tweets|e].
  2: { right; left. exists e. destruct (handle_error v st1 e inp); reflexivity. }
  cbn [seen_tweets requests_made window_start_time].
  pose proof (deliver_batch_alerts v names (seen_tweets st1) tweets) as [Hs Ha].
  destruct (deliver_batch v names (seen_tweets st1) tweets) as [[seen2 evd] [e|]];
    cbn [fst snd] in *.
  - right; right; left. exists seen2, evd, e. split_and!; [exact Hs|exact Ha|].
    cbn [seen_tweets requests_made window_start_time].
    match goal with |- context [handle_error v ?s e inp] => destruct (handle_error v s e inp) end.
    reflexivity.
  - right; right; right. exists seen2, evd. split_and!; [exact Hs|exact Ha|].
    destruct (Nat.ltb 1000 (size seen2)); reflexivity.
Qed.

Lemma handle_error_cases v st e inp :
  handle_error v st e inp =
    (st, LogError ("Error: " +:+ e) :: map Report (report v ("Error: " +:+ e)) ++
           [Sleep (CHECK_INTERVAL v)]) \/
  exists w, (w = [] \/ exists s, w = [Sleep s]) /\
    handle_error v st e inp =
      ({| seen_tweets := seen_tweets st; requests_made := 0;
          window_start_time := ci_after_wait_now inp |},
       LogError ("Error: " +:+ e) :: map Report (report v ("Error: " +:+ e)) ++ w ++
         [WindowReset]).
Proof.
  unfold handle_error. destruct (is_rate_limit_error e); [right|left; reflexivity].
  eexists. split; [|reflexivity]. destruct (Z.ltb _ _); [right; eexists; reflexivity|left; reflexivity].
Qed.

Lemma sleep_total_nil : sleep_total [] = 0.
Proof. reflexivity. Qed.

Lemma sleep_total_cons e l :
  sleep_total (e :: l) = match e with Sleep s => s | _ => 0 end + sleep_total l.
Proof. unfold sleep_total. destruct e; simpl; lia. Qed.

Lemma sleep_total_app a b : sleep_total (a ++ b) = sleep_total a + sleep_total b.
Proof.
  induction a as [|x a IH]; [reflexivity|].
  rewrite <- app_comm_cons, !sleep_total_cons, IH. lia.
Qed.

Lemma sleep_total_reports l : sleep_total (map Report l) = 0.
Proof. induction l as [|x l IH]; [reflexivity|]. simpl map. rewrite sleep_total_cons, IH. reflexivity. Qed.

Lemma sleep_total_alerts evd : Forall is_alert evd -> sleep_total evd = 0.
Proof.
  induction 1 as [|x l [tid [c ->]] _ IH]; [reflexivity|].
  rewrite sleep_total_cons, IH. reflexivity.
Qed.

Lemma sleep_total_wait v : 0 <= CHECK_INTERVAL v -> sleep_total (wait_phase v) = CHECK_INTERVAL v.
Proof.
  intros H. unfold wait_phase. rewrite <- (Z2Nat.id (CHECK_INTERVAL v)) at 2 by exact H.
  induction (Z.to_nat (CHECK_INTERVAL v)) as [|n IH]; [reflexivity|].
  simpl repeat. rewrite sleep_total_cons, IH. lia.
Qed.

Lemma sleep_total_window_reset st now : sleep_total (snd (window_reset st now)) = 0.
Proof. destruct (window_reset_cases st now) as [-> | ->]; reflexivity. Qed.

Lemma last_reset (pre : list event) (w : list event) :
  last (pre ++ w ++ [WindowReset]) = Some WindowReset.
Proof. rewrite app_assoc. apply last_snoc. Qed.

Lemma in_reset_tail (pre w : list event) : In WindowReset (pre ++ w ++ [WindowReset]).
Proof. rewrite !in_app_iff. right; right; left; reflexivity. Qed.

Lemma request_count_app a b : request_count (a ++ b) = (request_count a + request_count b)%nat.
Proof. unfold request_count. rewrite List.filter_app, length_app. reflexivity. Qed.

Lemma request_count_free l : Forall (fun e => is_request e = false) l -> request_count l = 0%nat.
Proof. induction 1 as [|x l Hx _ IH]; [reflexivity|]. unfold request_count in *. simpl. rewrite Hx. exact IH. Qed.

Lemma request_free_map_report l : Forall (fun e => is_request e = false) (map Report l).
Proof. induction l; constructor; auto. Qed.

Lemma request_free_repeat n k : Forall (fun e => is_request e = false) (repeat (Sleep k) n).
Proof. induction n; constructor; auto. Qed.

Lemma request_free_alerts l : Forall is_alert l -> Forall (fun e => is_request e = false) l.
Proof. intros H. eapply Forall_impl; [exact H|]. intros x [tid [c ->]]. reflexivity. Qed.

Lemma request_free_window_reset st now :
  Forall (fun e => is_request e = false) (snd (window_reset st now)).
Proof. destruct (window_reset_cases st now) as [-> | ->]; repeat constructor. Qed.

Lemma request_free_handle_error v st e inp :
  Forall (fun e => is_request e = false) (snd (handle_error v st e inp)).
Proof.
  destruct (handle_error_cases v st e inp) as [-> | (w & Hw & ->)]; cbn [snd];
    constructor; [reflexivity| |reflexivity|];
    apply Forall_app; split; try apply request_free_map_report.
  - repeat constructor.
  - apply Forall_app; split; [destruct Hw as [->|[s ->]]|]; repeat constructor.
Qed.

Lemma cycle_request_count v names st inp : (request_count (snd (cycle v names st inp)) <= 1)%nat.
Proof.
  pose proof (request_free_window_reset st (ci_now inp)) as Hw.
  pose proof (request_free_repeat (Z.to_nat (CHECK_INTERVAL v)) 1) as Hr.
  destruct (cycle_cases v names st inp)
    as [H|[(e & H)|[(seen2 & evd & e & _ & Ha & H)|(seen2 & evd & _ & Ha & H)]]];
    rewrite H; cbn [snd]; rewrite ?request_count_app;
    rewrite ?(request_count_free _ Hw); unfold wait_phase; rewrite ?(request_count_free _ Hr);
    rewrite ?(request_count_free _ (request_free_handle_error _ _ _ _));
    rewrite ?(request_count_free _ (request_free_alerts _ Ha)).
  - lia.
  - reflexivity.
  - reflexivity.
  - destruct (Nat.ltb 1000 (size seen2)); reflexivity.
Qed.

Ltac sleep_simp :=
  repeat first [rewrite sleep_total_app | rewrite sleep_total_cons | rewrite sleep_total_nil
               | rewrite sleep_total_reports].

(** Extra: one iteration of the loop sleeps [CHECK_INTERVAL] seconds in
    total, except when it ends in the rate-limit branch of the exception
    handler; such an iteration ends with the window reset, with the counter
    at 0 and the window start at the time read after the wait. *)
Theorem cycle_sleep v names st inp :
  0 <= CHECK_INTERVAL v ->
  sleep_total (snd (cycle v names st inp)) = CHECK_INTERVAL v \/
  (last (snd (cycle v names st inp)) = Some WindowReset /\
   requests_made (fst (cycle v names st inp)) = 0 /\
   window_start_time (fst (cycle v names st inp)) = ci_after_wait_now inp).
Proof.
  intros Hci.
  pose proof (sleep_total_window_reset st (ci_now inp)) as Hw.
  destruct (cycle_cases v names st inp)
    as [H|[(e & H)|[(seen2 & evd & e & _ & Ha & H)|(seen2 & evd & _ & Ha & H)]]];
    rewrite H; cbn [fst snd].
  - left. sleep_simp. rewrite Hw, sleep_total_wait by exact Hci. lia.
  - match goal with |- context [handle_error v ?s e inp] =>
      destruct (handle_error_cases v s e inp) as [Hh|(w & _ & Hh)]; rewrite Hh end;
      cbn [fst snd].
    + left. sleep_simp. rewrite Hw. simpl. lia.
    + right. split_and!; [|reflexivity|reflexivity].
      rewrite app_assoc, app_comm_cons, app_assoc. apply last_reset.
  - match goal with |- context [handle_error v ?s e inp] =>
      destruct (handle_error_cases v s e inp) as [Hh|(w & _ & Hh)]; rewrite Hh end;
      cbn [fst snd].
    + left. sleep_simp. rewrite Hw, (sleep_total_alerts _ Ha). simpl. lia.
    + right. split_and!; [|reflexivity|reflexivity].
      rewrite app_assoc, app_assoc, app_comm_cons, app_assoc. apply last_reset.
  - left. destruct (Nat.ltb 1000 (size seen2)); sleep_simp;
      rewrite Hw, (sleep_total_alerts _ Ha), sleep_total_wait by exact Hci; simpl; lia.
Qed.

Lemma cycle_sleep_witness :
  sleep_total (snd (cycle telegram ab_names (init_state 0) (at_time 0 (ok_response [p1])))) =
    CHECK_INTERVAL telegram \/
  (last (snd (cycle telegram ab_names (init_state 0) (at_time 0 (ok_response [p1])))) =
     Some WindowReset /\
   requests_made (fst (cycle telegram ab_names (init_state 0) (at_time 0 (ok_response [p1])))) = 0 /\
   window_start_time (fst (cycle telegram ab_names (init_state 0)
                             (at_time 0 (ok_response [p1])))) =
     ci_after_wait_now (at_time 0 (ok_response [p1]))).
Proof. apply cycle_sleep. simpl. lia. Defined.

(** Extra: each iteration of the loop makes at most one search request, so
    a run over [n] iterations makes at most [n] requests. *)
Theorem run_request_count v names st inps :
  (request_count (snd (run v names st inps)) <= length inps)%nat.
Proof.
  induction inps as [|inp inps IH] in st |- *; simpl; [apply Nat.le_refl|].
  pose proof (cycle_request_count v names st inp) as Hc.
  destruct (cycle v names st inp) as [st1 evs1]; cbn [snd] in Hc.
  specialize (IH st1).
  destruct (run v names st1 inps) as [st2 evs2]; cbn [snd] in *.
  rewrite request_count_app. lia.
Qed.

(** Extra: an iteration never removes an id from the dedup set except by
    clearing it: either the set only grows, or the iteration cleared it and
    it ends empty. *)
Theorem cycle_seen_monotone v names st inp :
  seen_tweets st ⊆ seen_tweets (fst (cycle v names st inp)) \/
  (In SeenCleared (snd (cycle v names st inp)) /\ seen_tweets (fst (cycle v names st inp)) = ∅).
Proof.
  pose proof (window_reset_quiet st (ci_now inp)) as [_ Hs].
  destruct (cycle_cases v names st inp)
    as [H|[(e & H)|[(seen2 & evd & e & Hsub & _ & H)|(seen2 & evd & Hsub & _ & H)]]];
    rewrite H; cbn [fst snd].
  - left. rewrite Hs. reflexivity.
  - left. rewrite (proj2 (handle_error_quiet _ _ _ _)), Hs. reflexivity.
  - left. rewrite (proj2 (handle_error_quiet _ _ _ _)). cbn [seen_tweets]. rewrite <- Hs. exact Hsub.
  - destruct (Nat.ltb 1000 (size seen2)); cbn [seen_tweets].
    + right. split; [|reflexivity]. rewrite !in_app_iff. right; right; right. left; left. reflexivity.
    + left. rewrite <- Hs. exact Hsub.
Qed.

Lemma deliver_batch_app v names seen a b :
  deliver_batch v names seen (a ++ b) =
    match deliver_batch v names seen a with
    | (s1, e1, None) => let '(s2, e2, x) := deliver_batch v names s1 b in (s2, e1 ++ e2, x)
    | (s1, e1, Some x) => (s1, e1, Some x)
    end.
Proof.
  induction a as [|t a IH] in seen |- *; simpl.
  - destruct (deliver_batch v names seen b) as [[? ?] ?]; reflexivity.
  - destruct (decide (tw_id t ∈ seen)); [apply IH|].
    destruct (names !! tw_author_id t) as [u|]; [|reflexivity].
    rewrite IH.
    destruct (deliver_batch v names ({[tw_id t]} ∪ seen) a) as [[s1 e1] [x|]]; [reflexivity|].
    destruct (deliver_batch v names s1 b) as [[? ?] ?]; reflexivity.
Qed.

(** An iteration that passes the gate, fetches, and completes the delivery
    logs no error. *)
Lemma cycle_complete_no_error v names st inp tweets :
  (requests_made (fst (window_reset st (ci_now inp))) < RATE_LIMIT_REQUESTS)%Z ->
  get_latest_tweets_batch (ci_response inp) = Ok tweets ->
  snd (deliver_batch v names (seen_tweets st) tweets) = None ->
  forall m, ~ In (LogError m) (snd (cycle v names st inp)).
Proof.
  intros Hlt Hf Hk m. unfold cycle.
  pose proof (window_reset_quiet st (ci_now inp)) as [_ Hs].
  pose proof (window_reset_cases st (ci_now inp)) as Hw.
  destruct (window_reset st (ci_now inp)) as [st1 ev1]; cbn [fst snd] in *.
  apply Z.ltb_lt in Hlt. rewrite Hlt, Hf. cbn [seen_tweets requests_made window_start_time].
  rewrite <- Hs in Hk.
  pose proof (deliver_batch_alerts v names (seen_tweets st1) tweets) as [_ Ha].
  destruct (deliver_batch v names (seen_tweets st1) tweets) as [[seen2 evd] exn];
    cbn [fst snd] in Hk, Ha. subst exn.
  assert (Hev1 : ~ In (LogError m) ev1)
    by (destruct Hw as [Hw|Hw]; injection Hw as _ ->; simpl; intuition discriminate).
  destruct (Nat.ltb 1000 (size seen2)); cbn [fst snd]; intros Hin;
    (apply in_app_iff in Hin as [H|Hin]; [exact (Hev1 H)|]);
    (apply in_app_iff in Hin as [H|Hin]; [simpl in H; intuition discriminate|]);
    (apply in_app_iff in Hin as [H|Hin];
       [destruct (proj1 (List.Forall_forall _ _) Ha _ H) as (? & ? & E); discriminate E|]);
    (apply in_app_iff in Hin as [H|H]; [simpl in H; intuition discriminate|]);
    unfold wait_phase in H; apply repeat_spec in H; discriminate H.
Qed.

Lemma stray_flood_batch :
  deliver_batch telegram ab_names ∅ (flood_batch ++ [stray]) =
    ({[tw_id stray]} ∪ (∅ ∪ list_to_set (map flood_id (seq 0 1001))),
     map (fun t => Alert (tw_id t) (deliver telegram "a" t)) flood_batch,
     Some (key_error_msg (tw_author_id stray))).
Proof.
  rewrite deliver_batch_app, flood_batch_fresh
    by (apply List.Forall_forall; intros ? _; apply not_elem_of_empty).
  cbv beta iota. cbn [deliver_batch].
  destruct (decide (tw_id stray ∈ ∅ ∪ list_to_set (map flood_id (seq 0 1001)))) as [Hin|_].
  - exfalso. apply elem_of_union in Hin as [Hin|Hin]; [exact (not_elem_of_empty _ Hin)|].
    apply elem_of_list_to_set, list_elem_of_In, in_map_iff in Hin as (m & Hm & _).
    unfold flood_id in Hm. discriminate Hm.
  - replace (ab_names !! tw_author_id stray) with (@None string) by reflexivity.
    cbv beta iota zeta. rewrite app_nil_r. reflexivity.
Qed.

(** Extra: the dedup set stays at most 1000 ids long across an iteration
    that raises no exception (no [logging.error]); an iteration that raises
    mid-batch skips the size check: its dedup set is whatever the delivery
    loop left, however large, and no clear happens. *)
Theorem cycle_seen_bounded v names st inp :
  ((size (seen_tweets st) <= 1000)%nat ->
   (forall m, ~ In (LogError m) (snd (cycle v names st inp))) ->
   (size (seen_tweets (fst (cycle v names st inp))) <= 1000)%nat) /\
  (forall tweets seen2 evd e,
     (requests_made (fst (window_reset st (ci_now inp))) < RATE_LIMIT_REQUESTS)%Z ->
     get_latest_tweets_batch (ci_response inp) = Ok tweets ->
     deliver_batch v names (seen_tweets st) tweets = (seen2, evd, Some e) ->
     seen_tweets (fst (cycle v names st inp)) = seen2 /\
     ~ In SeenCleared (snd (cycle v names st inp))).
Proof.
  split.
  - intros Hb Hn.
    pose proof (window_reset_quiet st (ci_now inp)) as [_ Hs].
    destruct (cycle_cases v names st inp)
      as [H|[(e & H)|[(seen2 & evd & e & _ & _ & H)|(seen2 & evd & _ & _ & H)]]];
      rewrite H in Hn |- *; cbn [fst snd] in Hn |- *.
    + rewrite Hs. exact Hb.
    + exfalso. apply (Hn ("Error: " +:+ e)).
      match goal with |- context [handle_error v ?s e inp] =>
        destruct (handle_error_cases v s e inp) as [Hh|(w & _ & Hh)]; rewrite Hh end;
      cbn [snd]; rewrite !in_app_iff; right; right; left; reflexivity.
    + exfalso. apply (Hn ("Error: " +:+ e)).
      match goal with |- context [handle_error v ?s e inp] =>
        destruct (handle_error_cases v s e inp) as [Hh|(w & _ & Hh)]; rewrite Hh end;
      cbn [snd]; rewrite !in_app_iff; right; right; right; left; reflexivity.
    + cbn [seen_tweets]. destruct (Nat.ltb_spec 1000 (size seen2)).
      * rewrite size_empty. lia.
      * assumption.
  - intros tweets seen2 evd e Hlt Hf Hd. unfold cycle.
    pose proof (window_reset_quiet st (ci_now inp)) as [Hq Hs].
    destruct (window_reset st (ci_now inp)) as [st1 ev1]; cbn [fst snd] in *.
    apply Z.ltb_lt in Hlt. rewrite Hlt, Hf. cbn [seen_tweets requests_made window_start_time].
    rewrite Hs, Hd.
    pose proof (deliver_batch_alerts v names (seen_tweets st) tweets) as [_ Ha].
    rewrite Hd in Ha. cbn [fst snd] in Ha.
    match goal with |- context [handle_error v ?s e inp] =>
      pose proof (handle_error_quiet v s e inp) as [Hq2 Hs2];
      destruct (handle_error v s e inp) as [st' evh] end.
    cbn [fst snd] in *. split; [exact Hs2|].
    rewrite !in_app_iff. intros [H|[[H|[H|[]]]|[H|H]]].
    + exact (proj2 (proj1 (List.Forall_forall _ _) Hq _ H) eq_refl).
    + discriminate H.
    + discriminate H.
    + destruct (proj1 (List.Forall_forall _ _) Ha _ H) as (? & ? & E); discriminate E.
    + exact (proj2 (proj1 (List.Forall_forall _ _) Hq2 _ H) eq_refl).
Qed.

Lemma cycle_seen_bounded_witness :
  (size (seen_tweets (fst (cycle telegram ab_names flood_state_1000 flood_input_1000)))
     <= 1000)%nat /\
  seen_tweets (fst (cycle telegram ab_names (init_state 0) stray_flood_input)) =
    {[tw_id stray]} ∪ (∅ ∪ list_to_set (map flood_id (seq 0 1001))) /\
  ~ In SeenCleared (snd (cycle telegram ab_names (init_state 0) stray_flood_input)) /\
  (1000 < size ({[tw_id stray]} ∪ (∅ ∪ list_to_set (map flood_id (seq 0 1001)))
                : gset string))%nat.
Proof.
  destruct (cycle_seen_bounded telegram ab_names flood_state_1000 flood_input_1000) as [Ha _].
  destruct (cycle_seen_bounded telegram ab_names (init_state 0) stray_flood_input) as [_ Hb].
  destruct (Hb (flood_batch ++ [stray]) _ _ _ eq_refl eq_refl stray_flood_batch) as [Hs Hn].
  split; [|split; [exact Hs|split; [exact Hn|]]].
  - apply Ha.
    + change (seen_tweets flood_state_1000)
        with (list_to_set (map flood_id (seq 0 1000)) : gset string).
      rewrite size_list_to_set by apply flood_ids_nodup.
      rewrite length_map, length_seq. lia.
    + apply (cycle_complete_no_error _ _ _ _ [flood_post 1000]); [reflexivity|reflexivity|].
      destruct (deliver_batch_known telegram ab_names (seen_tweets flood_state_1000)
                  [flood_post 1000]) as [evs [Hd _]]; [repeat constructor; discriminate|].
      rewrite Hd. reflexivity.
  - eapply Nat.lt_le_trans; [|apply subseteq_size; apply union_subseteq_r].
    rewrite (left_id_L ∅ (∪)), size_list_to_set by apply flood_ids_nodup.
    rewrite length_map, length_seq. lia.
Defined.

(** Extra: the window start only moves in an iteration that resets the
    window; in any other iteration the request counter either stays or
    grows by exactly one. *)
Theorem cycle_window_frame v names st inp :
  In WindowReset (snd (cycle v names st inp)) \/
  (window_start_time (fst (cycle v names st inp)) = window_start_time st /\
   (requests_made (fst (cycle v names st inp)) = requests_made st \/
    requests_made (fst (cycle v names st inp)) = requests_made st + 1)).
Proof.
  destruct (window_reset_cases st (ci_now inp)) as [Hr|Hr].
  2: { left. destruct (cycle_cases v names st inp)
         as [H|[(e & H)|[(seen2 & evd & e & _ & _ & H)|(seen2 & evd & _ & _ & H)]]];
       rewrite H, Hr; cbn [snd]; left; reflexivity. }
  destruct (cycle_cases v names st inp)
    as [H|[(e & H)|[(seen2 & evd & e & _ & _ & H)|(seen2 & evd & _ & _ & H)]]];
    rewrite H, Hr; cbn [fst snd].
  - right. split; [reflexivity|left; reflexivity].
  - destruct (handle_error_cases v st e inp) as [Hh|(w & _ & Hh)]; rewrite Hh; cbn [fst snd].
    + right. split; [reflexivity|left; reflexivity].
    + left. rewrite app_assoc, app_comm_cons, app_assoc. apply in_reset_tail.
  - match goal with |- context [handle_error v ?s e inp] =>
      destruct (handle_error_cases v s e inp) as [Hh|(w & _ & Hh)]; rewrite Hh end;
      cbn [fst snd].
    + right. split; [reflexivity|right; reflexivity].
    + left. rewrite app_assoc, app_assoc, app_comm_cons, app_assoc. apply in_reset_tail.
  - right. split; [reflexivity|right; reflexivity].
Qed.
